(** * DPoR consensus engine: snapshot, seal verification, signer, handler

    A shallow embedding of the parts of the cpchain DPoR engine that the
    specification talks about:

    - [consensus/dpor] snapshot ([DporSnapshot], [newSnapshot], [copy],
      [apply], [applyHeader], [signerRound], [isSigner], [isLeader],
      [inturn]);
    - [consensus/dpor] utilities ([sigHash], [ecrecover], [acceptSigs],
      [percentagePBFT], [calcDifficulty]);
    - [consensus/dpor] helper ([verifyHeader], [verifyCascadingFields],
      [verifySeal], [signHeader]);
    - [consensus/dpor/backend] handler ([handleLBFT2Msg], [newMsgID],
      the record of broadcasts and [reBroadcast]).

    Machine integers are integers in [Z] with the wrap-around of the Go
    operation written out.  Hashes and addresses are fixed-width byte
    arrays in Go; they are represented by the unsigned integer they encode
    (a 256-bit and a 160-bit word).  Byte slices are lists of bytes.
    Go maps are finite maps. *)

From Stdlib Require Import ZArith List Lia Bool.
From Stdlib.Strings Require Import Byte.
From stdpp Require Import base option list gmap.

Local Open Scope Z_scope.

(** ** Outcomes, integers, slices *)

(** A Go call either panics or returns. *)
Inductive outcome (A : Type) : Type :=
| Panic : outcome A
| Ret : A -> outcome A.
Arguments Panic {A}.
Arguments Ret {A} _.

Definition obind {A B} (m : outcome A) (k : A -> outcome B) : outcome B :=
  match m with
  | Panic => Panic
  | Ret a => k a
  end.

Notation "'do!' x <- m ; k" := (obind m (fun x => k))
  (at level 10, x pattern, m at level 100, k at level 200, only parsing).

#[global] Instance byte_eq_decision : EqDecision byte := Byte.byte_eq_dec.

(** [uint64] arithmetic wraps modulo [2^64]. *)
Definition wrap64 (z : Z) : Z := z mod 2 ^ 64.

(** [int64(u)] and, on a 64-bit platform, [int(u)] for [u : uint64]. *)
Definition toInt64 (u : Z) : Z := if u <? 2 ^ 63 then u else u - 2 ^ 64.

(** [big.Int.Uint64]: the low 64 bits of the absolute value. *)
Definition big_Uint64 (x : Z) : Z := Z.abs x mod 2 ^ 64.

(** [common.Hash.Big().Int64()]: the 32 bytes read as an unsigned
    big-endian integer, of which [Int64] keeps the low 64 bits as a
    two's-complement [int64]. *)
Definition Hash_Big_Int64 (h : Z) : Z := toInt64 (h mod 2 ^ 64).

(** The builtin [copy(dst, src)]: overwrites the first
    [min(len(dst), len(src))] elements of [dst]. *)
Definition copy_slice {A} (dst src : list A) : list A :=
  take (length dst) src ++ drop (length src) dst.

(** [make([]T, n)] for a zero value [z]. *)
Definition make_slice {A} (z : A) (n : Z) : list A := replicate (Z.to_nat n) z.

(** [copy(dst[a:b], src)] on a slice [dst] whose capacity is its length:
    the slice expression panics unless [0 <= a <= b <= len(dst)]. *)
Definition copy_at {A} (dst : list A) (a b : Z) (src : list A) : outcome (list A) :=
  if (0 <=? a) && (a <=? b) && (b <=? Z.of_nat (length dst)) then
    Ret (take (Z.to_nat a) dst
         ++ copy_slice (take (Z.to_nat (b - a)) (drop (Z.to_nat a) dst)) src
         ++ drop (Z.to_nat b) dst)
  else Panic.

(** ** Errors *)

Inductive error : Type :=
| errUnknownBlock
| errFakerFail
| errMissingSignature
| errInvalidSigBytes
| errInvalidDifficulty
| errInvalidVotingChain
| errSignerNotInCommittee
| errGenesisBlockNumber
| errNoSigsInCache
| errMultiBlocksInOneHeight
| ErrUnknownAncestor
| ErrUnauthorized
| ErrNotEnoughSigs
| errOther (code : Z).

#[global] Instance error_eq_decision : EqDecision error.
Proof. solve_decision. Defined.

(** ** Headers *)

(** [types.Header], with the fields of [HeaderOld.ToNewType]. *)
Record Header : Type := mkHeader {
  ParentHash : Z;
  Coinbase : Z;
  StateRoot : Z;
  TxsRoot : Z;
  ReceiptsRoot : Z;
  LogsBloom : list byte;
  Difficulty : Z;
  Number : Z;
  GasLimit : Z;
  GasUsed : Z;
  Time : Z;
  Extra : list byte;
  Extra2 : list byte;
  MixHash : Z;
  Nonce : list byte
}.

(** ** Configuration and constants *)

Record DporConfig : Type := mkConfig {
  Period : Z;
  Epoch : Z;
  View : Z
}.

Definition checkpointInterval : Z := 4.
Definition pctA : Z := 2.
Definition pctB : Z := 3.

(** Modelled from the spec: the constant [extraSeal] is used by the
    sources but declared in a file that is not among them; the spec fixes
    the seal at 65 bytes (section 3, Signature), as do the comments of
    [sigHash]. *)
Definition extraSeal : Z := 65.

(** ** Reputation values handed to the election *)

Record RPT : Type := mkRPT {
  rpt_Address : Z;
  rpt_Rpt : Z
}.

(** ** The snapshot *)

(** [DporSnapshot].  The [sigcache] pointer is not read by any snapshot
    method and is left out. *)
Record DporSnapshot : Type := mkSnapshot {
  config : DporConfig;
  sNumber : Z;
  sHash : Z;
  Signers : list Z;
  Candidates : list Z;
  Recents : gmap Z Z
}.

Definition zeroAddress : Z := 0.

(** [newSnapshot].  [make([]common.Address, config.Epoch)] takes a
    [uint64] length and panics ([makeslice: len out of range]) when the
    length is not an [int]. *)
Definition newSnapshot (cfg : DporConfig) (number hash : Z) (signers : list Z)
  : outcome DporSnapshot :=
  if toInt64 (Epoch cfg) <? 0 then Panic
  else
    Ret {| config := cfg;
           sNumber := number;
           sHash := hash;
           Signers := copy_slice (make_slice zeroAddress (Epoch cfg)) signers;
           Candidates := [];
           Recents := ∅ |}.

(** [copy], with the same [make] for the signers. *)
Definition copy (s : DporSnapshot) : outcome DporSnapshot :=
  if toInt64 (Epoch (config s)) <? 0 then Panic
  else
    Ret {| config := config s;
           sNumber := sNumber s;
           sHash := sHash s;
           Signers :=
             copy_slice (make_slice zeroAddress (Epoch (config s))) (Signers s);
           Candidates :=
             copy_slice (make_slice zeroAddress (Z.of_nat (length (Candidates s))))
                        (Candidates s);
           Recents :=
             map_fold (fun block signer m => <[block := signer]> m) ∅ (Recents s) |}.

Definition stubCandidates : list Z :=
  [ 0xe94b7b6c5a0e526a4d97f9768ad6097bde25c62a;
    0xc05302acebd0730e3a18a058d7d1cb1204c4a092;
    0xef3dd127de235f15ffb4fc0d71469d1339df6465 ].

Definition stubRpts : list RPT :=
  [ mkRPT 0xe94b7b6c5a0e526a4d97f9768ad6097bde25c62a 50;
    mkRPT 0xc05302acebd0730e3a18a058d7d1cb1204c4a092 100;
    mkRPT 0xef3dd127de235f15ffb4fc0d71469d1339df6465 20 ].

Definition updateCandidates (s : DporSnapshot) (header : Header)
  : DporSnapshot * option error :=
  (mkSnapshot (config s) (sNumber s) (sHash s) (Signers s) stubCandidates (Recents s),
   None).

Definition updateRpts (s : DporSnapshot) (header : Header)
  : list RPT * option error :=
  (stubRpts, None).

Definition signers (s : DporSnapshot) : list Z := Signers s.

Fixpoint signerRound_from (round : Z) (l : list Z) (signer : Z) : Z * option error :=
  match l with
  | [] => (-1, Some errSignerNotInCommittee)
  | s :: l' =>
      if decide (s = signer) then (round, None)
      else signerRound_from (round + 1) l' signer
  end.

Definition signerRound (s : DporSnapshot) (signer : Z) : Z * option error :=
  signerRound_from 0 (signers s) signer.

Definition isSigner (s : DporSnapshot) (signer : Z) : bool :=
  match snd (signerRound s signer) with
  | None => true
  | Some _ => false
  end.

(** [isLeader]; the remainder panics on a zero epoch length. *)
Definition isLeader (s : DporSnapshot) (signer number : Z)
  : outcome (bool * option error) :=
  if number =? 0 then Ret (false, Some errGenesisBlockNumber)
  else
    let '(round, err) := signerRound s signer in
    match err with
    | Some e => Ret (false, Some e)
    | None =>
        if Epoch (config s) =? 0 then Panic
        else Ret (round =? toInt64 ((number - 1) mod Epoch (config s)), None)
    end.

Definition inturn (s : DporSnapshot) (number signer : Z) : outcome bool :=
  do! r <- isLeader s signer number ;
  match snd r with
  | Some _ => Ret false
  | None => Ret (fst r)
  end.

Section Snapshot.

(** [types.Header.Hash]: Keccak-256 over the RLP encoding of the header;
    the method is declared outside the sources at hand. *)
Variable header_Hash : Header -> Z.

(** [election.Elect]; only its test is among the sources. *)
Variable Elect : list RPT -> Z -> Z -> list Z.

Definition updateView (s : DporSnapshot) (rpts : list RPT) (seed viewLength : Z)
  : DporSnapshot * option error :=
  (mkSnapshot (config s) (sNumber s) (sHash s) (Elect rpts seed viewLength)
              (Candidates s) (Recents s),
   None).

Definition applyHeader (s : DporSnapshot) (header : Header)
  : DporSnapshot * option error :=
  let s1 := mkSnapshot (config s) (big_Uint64 (Number header)) (header_Hash header)
                       (Signers s) (Candidates s) (Recents s) in
  let s2 := fst (updateCandidates s1 header) in
  if sNumber s2 mod checkpointInterval =? 0 then
    let '(rpts, err) := updateRpts s2 header in
    match err with
    | Some e => (s2, Some e)
    | None =>
        let seed := Hash_Big_Int64 (header_Hash header) in
        let viewLength := toInt64 (Epoch (config s2)) in
        (fst (updateView s2 rpts seed viewLength), None)
    end
  else (s2, None).

(** The sanity loop of [apply]: [false] when some neighbouring pair
    breaks the numbering. *)
Fixpoint headers_sane (headers : list Header) : bool :=
  match headers with
  | h :: (h' :: _) as rest =>
      if decide (big_Uint64 (Number h') <> wrap64 (big_Uint64 (Number h) + 1))
      then false
      else headers_sane rest
  | _ => true
  end.

(** The [range] loop of [apply] over the working copy. *)
Fixpoint apply_loop (snap : DporSnapshot) (headers : list Header)
  : DporSnapshot + error :=
  match headers with
  | [] => inl snap
  | header :: rest =>
      let '(snap', err) := applyHeader snap header in
      match err with
      | Some e => inr e
      | None => apply_loop snap' rest
      end
  end.

(** [apply]: the snapshot or the error it returns, unless [copy]
    panics. *)
Definition apply (s : DporSnapshot) (headers : list Header)
  : outcome (DporSnapshot + error) :=
  match headers with
  | [] => Ret (inl s)
  | h0 :: _ =>
      if negb (headers_sane headers) then Ret (inr errInvalidVotingChain)
      else if decide (big_Uint64 (Number h0) <> wrap64 (sNumber s + 1))
      then Ret (inr errInvalidVotingChain)
      else
        do! snap0 <- copy s ;
        match apply_loop snap0 headers with
        | inr e => Ret (inr e)
        | inl snap =>
            match last headers with
            | None => Ret (inl snap)
            | Some hl =>
                Ret (inl (mkSnapshot (config snap) (big_Uint64 (Number hl))
                                     (header_Hash hl) (Signers snap)
                                     (Candidates snap) (Recents snap)))
            end
        end
  end.

End Snapshot.

(** ** Signature recovery and the quorum test *)

(** The values handed to [rlp.Encode] by [sigHash], in order. *)
Inductive rlp_item : Type :=
| rlpHash (h : Z)
| rlpAddress (a : Z)
| rlpBytes (b : list byte)
| rlpBig (z : Z)
| rlpUint (u : Z).

(** [percentagePBFT] on [uint] operands: both products wrap. *)
Definition percentagePBFT (n N : Z) : bool :=
  wrap64 (pctB * n) >? wrap64 (pctA * N).

(** The signature cache maps a block hash to a map from signer address
    to signature, [gmap Z (gmap Z (list byte))].  The ARC cache keeps 1000
    entries; what it evicts when an entry is added is not modelled, so
    the model tells nothing about the entries under other hashes after an
    [Add].

    [cache_put_sig] is [sigs.(map[common.Address][]byte)[signer] = sig]
    after [sigs, _ := sigcache.Get(hash)]: the type assertion panics on a
    miss, the assignment updates the cached map in place. *)
Definition cache_put_sig (cache : gmap Z (gmap Z (list byte))) (hash signer : Z)
           (sig : list byte) : outcome (gmap Z (gmap Z (list byte))) :=
  match cache !! hash with
  | Some sigs => Ret (<[hash := <[signer := sig]> sigs]> cache)
  | None => Panic
  end.

(** The counting loop of [acceptSigs], from [numSigs]. *)
Fixpoint count_sigs (s : gmap Z (list byte)) (signers : list Z) (numSigs : Z) : Z :=
  match signers with
  | [] => numSigs
  | signer :: rest =>
      match s !! signer with
      | Some _ => count_sigs s rest (wrap64 (numSigs + 1))
      | None => count_sigs s rest numSigs
      end
  end.

Inductive Mode : Type := NormalMode | FakeMode | DoNothingFakeMode.

#[global] Instance Mode_eq_decision : EqDecision Mode.
Proof. solve_decision. Defined.

(** The engine, restricted to the fields the helper reads or writes. *)
Record Dpor : Type := mkDpor {
  dpor_config : DporConfig;
  signatures : gmap Z (gmap Z (list byte));
  signedBlocks : gmap Z Z;
  signer : Z;
  signFn : Z -> Z -> list byte + error;
  fake : Mode;
  fakeFail : Z
}.

Definition set_signatures (d : Dpor) (c : gmap Z (gmap Z (list byte))) : Dpor :=
  mkDpor (dpor_config d) c (signedBlocks d) (signer d) (signFn d) (fake d) (fakeFail d).

Definition set_Extra2 (h : Header) (e2 : list byte) : Header :=
  mkHeader (ParentHash h) (Coinbase h) (StateRoot h) (TxsRoot h) (ReceiptsRoot h)
           (LogsBloom h) (Difficulty h) (Number h) (GasLimit h) (GasUsed h) (Time h)
           (Extra h) e2 (MixHash h) (Nonce h).

Definition set_Extra (h : Header) (e : list byte) : Header :=
  mkHeader (ParentHash h) (Coinbase h) (StateRoot h) (TxsRoot h) (ReceiptsRoot h)
           (LogsBloom h) (Difficulty h) (Number h) (GasLimit h) (GasUsed h) (Time h)
           e (Extra2 h) (MixHash h) (Nonce h).

Section Util.

Variable header_Hash : Header -> Z.

(** Keccak-256 over [rlp.Encode] of a list of values. *)
Variable rlpKeccak256 : list rlp_item -> Z.

(** [crypto.Ecrecover]: the public key behind a signature of a digest. *)
Variable crypto_Ecrecover : Z -> list byte -> list byte + error.

(** [crypto.Keccak256(pubkey[1:])[12:]] copied into an address; a key
    returned by [crypto.Ecrecover] without error has 65 bytes, so the
    slice expression is in range. *)
Variable pubkey_address : list byte -> Z.

(** [header.DecodedExtra2(types.TypeExtra2SignaturesDecoder)], giving
    the [Data] of the decoded structure. *)
Variable DecodedExtra2 : Header -> list byte + error.

(** [sigHash]; the slice expression [Extra[:len(Extra)-65]] panics when
    the extra-data is shorter than 65 bytes. *)
Definition sigHash (header : Header) : outcome Z :=
  if Z.of_nat (length (Extra header)) <? 65 then Panic
  else
    Ret (rlpKeccak256
           [ rlpHash (ParentHash header);
             rlpAddress (Coinbase header);
             rlpHash (StateRoot header);
             rlpHash (TxsRoot header);
             rlpHash (ReceiptsRoot header);
             rlpBytes (LogsBloom header);
             rlpBig (Difficulty header);
             rlpBig (Number header);
             rlpUint (GasLimit header);
             rlpUint (GasUsed header);
             rlpBig (Time header);
             rlpBytes (take (Z.to_nat (Z.of_nat (length (Extra header)) - 65))
                            (Extra header));
             rlpHash (MixHash header);
             rlpBytes (Nonce header) ]).

(** The recovery loop of [ecrecover] over the slots [i, i + todo) of
    [signersSig].  The middle component is the error of an early
    return. *)
Fixpoint recover_loop (todo : nat) (i : Z) (header : Header)
         (signersSig : list byte) (hash : Z) (signers : list Z)
         (cache : gmap Z (gmap Z (list byte)))
  : outcome (list Z * option error * gmap Z (gmap Z (list byte))) :=
  match todo with
  | O => Ret (signers, None, cache)
  | S todo' =>
      let signerSig :=
        take (Z.to_nat extraSeal) (drop (Z.to_nat (i * extraSeal)) signersSig) in
      let noSigner := bool_decide (signerSig = make_slice "000"%byte extraSeal) in
      if negb noSigner then
        do! h <- sigHash header ;
        match crypto_Ecrecover h signerSig with
        | inr e => Ret (signers, Some e, cache)
        | inl signerPubkey =>
            let signer := pubkey_address signerPubkey in
            do! cache' <- cache_put_sig cache hash signer signerSig ;
            recover_loop todo' (i + 1) header signersSig hash (signers ++ [signer]) cache'
        end
      else recover_loop todo' (i + 1) header signersSig hash signers cache
  end.

(** [ecrecover]: (leader, signers, error) and the cache afterwards. *)
Definition ecrecover (header : Header) (sigcache : gmap Z (gmap Z (list byte)))
  : outcome ((Z * list Z * option error) * gmap Z (gmap Z (list byte))) :=
  let hash := header_Hash header in
  if Z.of_nat (length (Extra header)) <? extraSeal then
    Ret ((zeroAddress, [], Some errMissingSignature), sigcache)
  else
    let leaderSig :=
      drop (Z.to_nat (Z.of_nat (length (Extra header)) - extraSeal)) (Extra header) in
    match DecodedExtra2 header with
    | inr e => Ret ((zeroAddress, [], Some e), sigcache)
    | inl signersSig =>
        do! h <- sigHash header ;
        match crypto_Ecrecover h leaderSig with
        | inr e => Ret ((zeroAddress, [], Some e), sigcache)
        | inl leaderPubkey =>
            let leader := pubkey_address leaderPubkey in
            let cache1 :=
              match sigcache !! hash with
              | Some sigs => <[hash := <[leader := leaderSig]> sigs]> sigcache
              | None => <[hash := {[leader := leaderSig]}]> sigcache
              end in
            if negb (Z.of_nat (length signersSig) mod extraSeal =? 0) then
              Ret ((leader, [], Some errInvalidSigBytes), cache1)
            else
              do! r <- recover_loop (Z.to_nat (Z.of_nat (length signersSig) / extraSeal))
                                    0 header signersSig hash [] cache1 ;
              let '(signers, err, cache2) := r in
              match err with
              | Some e => Ret ((zeroAddress, signers, Some e), cache2)
              | None => Ret ((leader, signers, None), cache2)
              end
        end
    end.

(** [acceptSigs]. *)
Definition acceptSigs (header : Header) (sigcache : gmap Z (gmap Z (list byte)))
           (signers : list Z) (epochL : Z) : bool * option error :=
  let hash := header_Hash header in
  match sigcache !! hash with
  | Some s =>
      let numSigs := count_sigs s signers 0 in
      (percentagePBFT numSigs epochL, None)
  | None => (false, Some errNoSigsInCache)
  end.

End Util.

(** ** The helper: seal verification and header signing *)

(** [int] multiplication on a 64-bit platform. *)
Definition int_mul (a b : Z) : Z := toInt64 (wrap64 (a * b)).

(** The first loop of [signHeader]: copies the cached signature of each
    committee member into its slot of [allSigs].  [s] is the cache entry
    of the header hash; the type assertion on it panics when there is
    none. *)
Fixpoint fill_sigs (s : option (gmap Z (list byte))) (round : Z) (committee : list Z)
         (allSigs : list byte) : outcome (list byte) :=
  match committee with
  | [] => Ret allSigs
  | signer :: rest =>
      match s with
      | None => Panic
      | Some sigs =>
          match sigs !! signer with
          | Some sig =>
              do! allSigs' <- copy_at allSigs (int_mul round extraSeal)
                                      (int_mul (round + 1) extraSeal) sig ;
              fill_sigs s (round + 1) rest allSigs'
          | None => fill_sigs s (round + 1) rest allSigs
          end
      end
  end.

Section Helper.

Variable header_Hash : Header -> Z.
Variable rlpKeccak256 : list rlp_item -> Z.
Variable crypto_Ecrecover : Z -> list byte -> list byte + error.
Variable pubkey_address : list byte -> Z.
Variable DecodedExtra2 : Header -> list byte + error.

(** [header.EncodeToExtra2] of a signatures structure with the given
    [Data]: the header with its [Extra2] rewritten, or an error. *)
Variable EncodeToExtra2 : Header -> list byte -> Header + error.

(** The helper works on a later revision of the snapshot than the one
    above; of that revision only the calls are among the sources, so
    the snapshot type and the methods called on it are left abstract. *)
Variable Snap : Type.
Variable SignersOf : Snap -> Z -> list Z.
Variable IsLeaderOf : Snap -> Z -> Z -> bool * option error.
Variable IsSignerOf : Snap -> Z -> Z -> bool.
Variable SignerRoundOf : Snap -> Z -> Z -> Z * option error.

(** [dh.snapshot(dpor, chain, number, hash, parents)] over a fixed
    chain and database; what it caches in [dpor.recents] and the
    database is outside the modelled state. *)
Variable snapshot : Z -> Z -> list Header -> Snap + error.

Variable diffInTurn diffNoTurn : Z.

Definition verifySeal (dpor : Dpor) (header : Header) (parents : list Header)
  : outcome (option error * Dpor) :=
  let hash := header_Hash header in
  let number := big_Uint64 (Number header) in
  if number =? 0 then Ret (Some errUnknownBlock, dpor)
  else if bool_decide (fake dpor = FakeMode) || bool_decide (fake dpor = DoNothingFakeMode)
  then
    if fakeFail dpor =? number then Ret (Some errFakerFail, dpor)
    else Ret (None, dpor)
  else
    do! r <- ecrecover header_Hash rlpKeccak256 crypto_Ecrecover pubkey_address
                       DecodedExtra2 header (signatures dpor) ;
    let '((leader, signers, err), cache) := r in
    let dpor' := set_signatures dpor cache in
    match err with
    | Some e => Ret (Some e, dpor')
    | None =>
        match snapshot (wrap64 (number - 1)) (ParentHash header) parents with
        | inr e => Ret (Some e, dpor')
        | inl snap =>
            let inturn := fst (IsLeaderOf snap leader (big_Uint64 (Number header))) in
            if inturn && negb (Difficulty header =? diffInTurn) then
              Ret (Some errInvalidDifficulty, dpor')
            else if negb inturn && negb (Difficulty header =? diffNoTurn) then
              Ret (Some errInvalidDifficulty, dpor')
            else
              let '(ok, err) := IsLeaderOf snap leader number in
              match err with
              | Some e => Ret (Some e, dpor')
              | None =>
                  if negb ok then Ret (Some ErrUnauthorized, dpor')
                  else
                    let '(accept, err) :=
                      acceptSigs header_Hash header (signatures dpor')
                                 (SignersOf snap number) (Epoch (dpor_config dpor')) in
                    match err with
                    | Some e => Ret (Some e, dpor')
                    | None =>
                        if negb accept then Ret (Some ErrNotEnoughSigs, dpor')
                        else Ret (None, dpor')
                    end
              end
        end
    end.

(** [signHeader]: the error, the engine and the header afterwards. *)
Definition signHeader (dpor : Dpor) (header : Header)
  : outcome (option error * Dpor * Header) :=
  let hash := header_Hash header in
  let number := big_Uint64 (Number header) in
  match snapshot (wrap64 (number - 1)) (ParentHash header) [] with
  | inr e => Ret (Some e, dpor, header)
  | inl snap =>
      let s := signatures dpor !! hash in
      let n := int_mul (toInt64 (Epoch (dpor_config dpor))) extraSeal in
      if n <? 0 then Panic
      else
        do! allSigs <- fill_sigs s 0 (SignersOf snap number)
                                 (make_slice "000"%byte n) ;
        match EncodeToExtra2 header allSigs with
        | inr e => Ret (Some e, dpor, header)
        | inl header1 =>
            if IsSignerOf snap (signer dpor) number then
              let sign_it :=
                do! h <- sigHash rlpKeccak256 header1 ;
                match signFn dpor (signer dpor) h with
                | inr e => Ret (Some e, dpor, header1)
                | inl sighash =>
                    let round := fst (SignerRoundOf snap (signer dpor) number) in
                    do! allSigs' <- copy_at allSigs (int_mul round extraSeal)
                                            (int_mul (round + 1) extraSeal) sighash ;
                    match EncodeToExtra2 header1 allSigs' with
                    | inr e => Ret (Some e, dpor, header1)
                    | inl header2 => Ret (None, dpor, header2)
                    end
                end in
              match signedBlocks dpor !! big_Uint64 (Number header1) with
              | Some signedHash =>
                  if negb (signedHash =? header_Hash header1) then
                    Ret (Some errMultiBlocksInOneHeight, dpor, header1)
                  else sign_it
              | None => sign_it
              end
            else Ret (Some errSignerNotInCommittee, dpor, header1)
        end
  end.

End Helper.

(** ** The protocol handler *)

Inductive MsgCode : Type :=
| NoMsgCode
| PreprepareMsgCode
| PrepareMsgCode
| CommitMsgCode
| PrepareAndCommitMsgCode
| ValidateMsgCode
| ImpeachPreprepareMsgCode
| ImpeachPrepareMsgCode
| ImpeachCommitMsgCode
| ImpeachPrepareAndCommitMsgCode
| ImpeachValidateMsgCode.

#[global] Instance MsgCode_eq_decision : EqDecision MsgCode.
Proof. solve_decision. Defined.

(** The wire code of a [p2p.Msg]. *)
Inductive WireCode : Type :=
| PreprepareBlockMsg
| PrepareHeaderMsg
| CommitHeaderMsg
| ValidateBlockMsg
| PreprepareImpeachBlockMsg
| PrepareImpeachHeaderMsg
| CommitImpeachHeaderMsg
| ValidateImpeachBlockMsg
| OtherMsg (code : Z).

Inductive Action : Type :=
| NoAction
| BroadcastMsgAction
| BroadcastAndInsertBlockAction
| OtherAction (code : Z).

Record Msg : Type := mkMsg {
  Code : WireCode;
  Payload : list byte
}.

Record BlockOrHeader (Block : Type) : Type := mkBlockOrHeader {
  block : option Block;
  header : option Header
}.
Arguments mkBlockOrHeader {Block} _ _.
Arguments block {Block} _.
Arguments header {Block} _.

(** What a call of the handler does to its collaborators, in program
    order; the calls started with [go] are recorded where they are
    started. *)
Inductive effect (Block RemoteSigner : Type) : Type :=
| SyncFrom (p : RemoteSigner)
| CallFSM (input : BlockOrHeader Block) (msgCode : MsgCode)
| AddUnknownAncestorBlock (b : option Block)
| BroadcastPrepareHeader (h : option Header)
| BroadcastCommitHeader (h : option Header)
| BroadcastValidateBlock (b : option Block)
| BroadcastPrepareImpeachHeader (h : option Header)
| BroadcastCommitImpeachHeader (h : option Header)
| BroadcastValidateImpeachBlock (b : option Block)
| InsertChain (b : option Block)
| BroadcastBlock (b : option Block) (prop : bool).
Arguments SyncFrom {Block RemoteSigner} _.
Arguments CallFSM {Block RemoteSigner} _ _.
Arguments AddUnknownAncestorBlock {Block RemoteSigner} _.
Arguments BroadcastPrepareHeader {Block RemoteSigner} _.
Arguments BroadcastCommitHeader {Block RemoteSigner} _.
Arguments BroadcastValidateBlock {Block RemoteSigner} _.
Arguments BroadcastPrepareImpeachHeader {Block RemoteSigner} _.
Arguments BroadcastCommitImpeachHeader {Block RemoteSigner} _.
Arguments BroadcastValidateImpeachBlock {Block RemoteSigner} _.
Arguments InsertChain {Block RemoteSigner} _.
Arguments BroadcastBlock {Block RemoteSigner} _ _.

(** A run of started calls that either went through or panicked after
    the calls listed. *)
Definition emit_at {A E} (out : list A) (i : nat) (f : A -> E) : list E * outcome unit :=
  match out !! i with
  | Some o => ([f o], Ret tt)
  | None => ([], Panic)
  end.

Definition and_then {E} (a b : list E * outcome unit) : list E * outcome unit :=
  match snd a with
  | Ret _ => (fst a ++ fst b, snd b)
  | Panic => (fst a, Panic)
  end.

Section Handler.

Variable Block : Type.
Variable RemoteSigner : Type.
Variable FsmState : Type.

Variable RecoverBlockFromMsg : Msg -> option RemoteSigner -> Block + error.
Variable RecoverHeaderFromMsg : Msg -> option RemoteSigner -> Header + error.

(** [BlockOrHeader.Number] and the state machine [vh.fsm.FSM] are
    declared outside the sources at hand. *)
Variable boh_Number : BlockOrHeader Block -> Z.
Variable FSM :
  FsmState -> BlockOrHeader Block -> MsgCode ->
  (option (list (BlockOrHeader Block)) * Action * MsgCode * option error) * FsmState.

(** The first [switch] of [handleLBFT2Msg]: the input and message code
    for the state machine, or the error of the decoder. *)
Definition decode_input (msg : Msg) (p : option RemoteSigner)
  : (BlockOrHeader Block * MsgCode) + error :=
  let of_block code :=
    match RecoverBlockFromMsg msg p with
    | inr e => inr e
    | inl b => inl (mkBlockOrHeader (Some b) None, code)
    end in
  let of_header code :=
    match RecoverHeaderFromMsg msg p with
    | inr e => inr e
    | inl h => inl (mkBlockOrHeader None (Some h), code)
    end in
  match Code msg with
  | PreprepareBlockMsg => of_block PreprepareMsgCode
  | PrepareHeaderMsg => of_header PrepareMsgCode
  | CommitHeaderMsg => of_header CommitMsgCode
  | ValidateBlockMsg => of_block ValidateMsgCode
  | PreprepareImpeachBlockMsg => of_block ImpeachPreprepareMsgCode
  | PrepareImpeachHeaderMsg => of_header ImpeachPrepareMsgCode
  | CommitImpeachHeaderMsg => of_header ImpeachCommitMsgCode
  | ValidateImpeachBlockMsg => of_block ImpeachValidateMsgCode
  | OtherMsg _ => inl (mkBlockOrHeader None None, NoMsgCode)
  end.

(** The last [switch] of [handleLBFT2Msg]: what is started for the
    output of the state machine; [output[i]] panics out of range. *)
Definition handle_output (output : option (list (BlockOrHeader Block)))
           (action : Action) (msgCode : MsgCode)
  : list (effect Block RemoteSigner) * outcome unit :=
  match output with
  | None => ([], Ret tt)
  | Some out =>
      match action with
      | BroadcastMsgAction =>
          match msgCode with
          | PrepareMsgCode =>
              emit_at out 0 (fun o => BroadcastPrepareHeader (header o))
          | CommitMsgCode =>
              emit_at out 0 (fun o => BroadcastCommitHeader (header o))
          | PrepareAndCommitMsgCode =>
              and_then (emit_at out 0 (fun o => BroadcastPrepareHeader (header o)))
                       (emit_at out 1 (fun o => BroadcastCommitHeader (header o)))
          | ValidateMsgCode =>
              emit_at out 0 (fun o => BroadcastValidateBlock (block o))
          | ImpeachPrepareMsgCode =>
              emit_at out 0 (fun o => BroadcastPrepareImpeachHeader (header o))
          | ImpeachCommitMsgCode =>
              emit_at out 0 (fun o => BroadcastCommitImpeachHeader (header o))
          | ImpeachPrepareAndCommitMsgCode =>
              and_then
                (emit_at out 0 (fun o => BroadcastPrepareImpeachHeader (header o)))
                (emit_at out 1 (fun o => BroadcastCommitImpeachHeader (header o)))
          | ImpeachValidateMsgCode =>
              emit_at out 0 (fun o => BroadcastValidateImpeachBlock (block o))
          | _ => ([], Ret tt)
          end
      | BroadcastAndInsertBlockAction =>
          match msgCode with
          | ValidateMsgCode | ImpeachValidateMsgCode =>
              and_then (emit_at out 0 (fun o => InsertChain (block o)))
                       (emit_at out 0 (fun o => BroadcastBlock (block o) true))
          | _ => ([], Ret tt)
          end
      | _ => ([], Ret tt)
      end
  end.

(** [handleLBFT2Msg] with [currentNumber] the number of the current
    block: the calls made, the state of the state machine afterwards,
    and the returned error unless the call panicked.  Logging, and the
    look-ups made only to log, are left out. *)
Definition handleLBFT2Msg (currentNumber : Z) (fsm : FsmState) (msg : Msg)
           (p : option RemoteSigner)
  : list (effect Block RemoteSigner) * FsmState * outcome (option error) :=
  match decode_input msg p with
  | inr e => ([], fsm, Ret (Some e))
  | inl (input, msgCode) =>
      let sync :=
        match p with
        | Some peer =>
            if boh_Number input >? wrap64 (currentNumber + 1) then [SyncFrom peer]
            else []
        | None => []
        end in
      if boh_Number input <? currentNumber then (sync, fsm, Ret None)
      else if bool_decide (msgCode = ImpeachPreprepareMsgCode) && bool_decide (p <> None)
      then (sync, fsm, Ret None)
      else
        let '((output, action, msgCode', err), fsm') := FSM fsm input msgCode in
        let called := sync ++ [CallFSM input msgCode] in
        let finish (tr : list (effect Block RemoteSigner)) :=
          let out := handle_output output action msgCode' in
          (tr ++ fst out, fsm',
           match snd out with
           | Ret _ => Ret None
           | Panic => Panic
           end) in
        match err with
        | None => finish called
        | Some ErrUnknownAncestor =>
            finish (called ++ [AddUnknownAncestorBlock (block input)])
        | Some _ => (called, fsm', Ret None)
        end
  end.

End Handler.

(** ** The helper: header verification *)

(** Modelled from the spec: the constant [extraVanity] is used by the
    sources but declared in a file that is not among them; the spec fixes
    the vanity prefix of the extra-data at 32 bytes (section 6, wire
    format). *)
Definition extraVanity : Z := 32.

(** [common.AddressLength]. *)
Definition AddressLength : Z := 20.

(** The errors of the header checks that the seal check does not use;
    they are told apart by their codes. *)
Definition ErrFutureBlock : error := errOther 101.
Definition errMissingVanity : error := errOther 102.
Definition errInvalidSigners : error := errOther 103.
Definition errInvalidMixHash : error := errOther 104.
Definition ErrInvalidTimestamp : error := errOther 105.

(** The slice expression [l[a:b]] on a slice whose capacity is at least
    [b] whenever its length is: it panics unless [0 <= a <= b <= len(l)]. *)
Definition slice_range {A} (l : list A) (a b : Z) : outcome (list A) :=
  if (0 <=? a) && (a <=? b) && (b <=? Z.of_nat (length l)) then
    Ret (take (Z.to_nat (b - a)) (drop (Z.to_nat a) l))
  else Panic.

Section VerifyHeader.

Variable header_Hash : Header -> Z.
Variable rlpKeccak256 : list rlp_item -> Z.
Variable crypto_Ecrecover : Z -> list byte -> list byte + error.
Variable pubkey_address : list byte -> Z.
Variable DecodedExtra2 : Header -> list byte + error.
Variable Snap : Type.
Variable SignersOf : Snap -> Z -> list Z.
Variable IsLeaderOf : Snap -> Z -> Z -> bool * option error.
Variable snapshot : Z -> Z -> list Header -> Snap + error.
Variable diffInTurn diffNoTurn : Z.

(** [signer[:]], the 20 bytes of an address. *)
Variable address_bytes : Z -> list byte.

(** [chain.GetHeader(hash, number)]; [None] is the nil header. *)
Variable GetHeader : Z -> Z -> option Header.

(** [time.Now().Unix()]. *)
Variable now : Z.

(** The loop of [verifyCascadingFields] that lays the committee out, 20
    bytes a signer. *)
Fixpoint fill_signers (round : Z) (committee : list Z) (signers : list byte)
  : outcome (list byte) :=
  match committee with
  | [] => Ret signers
  | signer :: rest =>
      do! signers' <- copy_at signers (int_mul round AddressLength)
                              (int_mul (round + 1) AddressLength)
                              (address_bytes signer) ;
      fill_signers (round + 1) rest signers'
  end.

Definition verifyCascadingFields (dpor : Dpor) (header : Header) (parents : list Header)
  : outcome (option error * Dpor) :=
  let number := big_Uint64 (Number header) in
  if number =? 0 then Ret (None, dpor)
  else
    let parent :=
      match last parents with
      | Some p => Some p
      | None => GetHeader (ParentHash header) (wrap64 (number - 1))
      end in
    match parent with
    | None => Ret (Some ErrUnknownAncestor, dpor)
    | Some parent =>
        if negb (big_Uint64 (Number parent) =? wrap64 (number - 1))
           || negb (header_Hash parent =? ParentHash header)
        then Ret (Some ErrUnknownAncestor, dpor)
        else if wrap64 (big_Uint64 (Time parent) + Period (dpor_config dpor))
                >? big_Uint64 (Time header)
        then Ret (Some ErrInvalidTimestamp, dpor)
        else
          match snapshot (wrap64 (number - 1)) (ParentHash header) parents with
          | inr e => Ret (Some e, dpor)
          | inl snap =>
              let n := toInt64 (wrap64 (Epoch (dpor_config dpor) * AddressLength)) in
              if n <? 0 then Panic
              else
                do! signers <- fill_signers 0 (SignersOf snap number)
                                            (make_slice "000"%byte n) ;
                let extraSuffix := Z.of_nat (length (Extra header)) - extraSeal in
                do! section <- slice_range (Extra header) extraVanity extraSuffix ;
                if negb (bool_decide (section = signers))
                   && bool_decide (NormalMode = fake dpor)
                then Ret (Some errInvalidSigners, dpor)
                else
                  verifySeal header_Hash rlpKeccak256 crypto_Ecrecover pubkey_address
                             DecodedExtra2 Snap SignersOf IsLeaderOf snapshot
                             diffInTurn diffNoTurn dpor header parents
          end
    end.

(** [verifyHeader].  A header is modelled with its number and difficulty
    set, so the tests for a nil number and a nil difficulty do not
    show. *)
Definition verifyHeader (dpor : Dpor) (header : Header) (parents : list Header)
  : outcome (option error * Dpor) :=
  let number := big_Uint64 (Number header) in
  if Time header >? now then Ret (Some ErrFutureBlock, dpor)
  else if bool_decide (fake dpor = FakeMode) then Ret (None, dpor)
  else if Z.of_nat (length (Extra header)) <? extraVanity then
    Ret (Some errMissingVanity, dpor)
  else if Z.of_nat (length (Extra header)) <? extraVanity + extraSeal then
    Ret (Some errMissingSignature, dpor)
  else
    let signersBytes := Z.of_nat (length (Extra header)) - extraVanity - extraSeal in
    if negb (signersBytes mod AddressLength =? 0) then
      Ret (Some errInvalidSigners, dpor)
    else if negb (MixHash header =? 0) then Ret (Some errInvalidMixHash, dpor)
    else if (number >? 0)
            && negb (Difficulty header =? diffInTurn)
            && negb (Difficulty header =? diffNoTurn)
    then Ret (Some errInvalidDifficulty, dpor)
    else verifyCascadingFields dpor header parents.

End VerifyHeader.

(** ** The utilities: difficulty of a new block *)

Section CalcDifficulty.

Variable Snap : Type.
Variable IsLeaderOf : Snap -> Z -> Z -> bool * option error.

(** [snap.Number]. *)
Variable SnapNumber : Snap -> Z.

Variable diffInTurn diffNoTurn : Z.

Definition calcDifficulty (snap : Snap) (signer : Z) : Z :=
  if fst (IsLeaderOf snap signer (wrap64 (SnapNumber snap + 1))) then diffInTurn
  else diffNoTurn.

End CalcDifficulty.

(** ** The handler: the record of broadcast messages *)

(** [hash/fnv.New32a]: FNV-1a on 32 bits. *)
Definition offset32 : Z := 2166136261.
Definition prime32 : Z := 16777619.

Definition fnv32a_Write (hash : Z) (data : list byte) : Z :=
  foldl (fun h c => (Z.lxor h (Z.of_N (Byte.to_N c)) * prime32) mod 2 ^ 32) hash data.

Record BlockIdentifier : Type := mkBlockIdentifier {
  bi_number : Z;
  bi_hash : Z
}.

(** [msgID]; [msgHash] is the 32-byte hash read as a number. *)
Record msgID : Type := mkMsgID {
  blockID : BlockIdentifier;
  msgCode : MsgCode;
  msgHash : Z
}.

#[global] Instance BlockIdentifier_eq_decision : EqDecision BlockIdentifier.
Proof. solve_decision. Defined.

#[global] Instance msgID_eq_decision : EqDecision msgID.
Proof. solve_decision. Defined.

(** [r.Read(p)] for a reader with [stream] left to deliver: the buffer
    afterwards.  A reader fills at most [len(p)] bytes; one that delivers
    all it can is taken here. *)
Definition reader_Read (stream buf : list byte) : list byte := copy_slice buf stream.

(** [newMsgID]: the payload is read into the nil slice [payload]. *)
Definition newMsgID (number hash : Z) (code : MsgCode) (msg : Msg) : msgID :=
  let payload := reader_Read (Payload msg) [] in
  let h := fnv32a_Write offset32 payload in
  mkMsgID (mkBlockIdentifier number hash) code h.

(** The calls of [reBroadcast], named as in the handler. *)
Module Relay.

Inductive call (Block : Type) : Type :=
| BroadcastPreprepareBlock (b : option Block)
| BroadcastPrepareHeader (h : option Header)
| BroadcastCommitHeader (h : option Header)
| BroadcastValidateBlock (b : option Block)
| BroadcastPreprepareImpeachBlock (b : option Block)
| BroadcastPrepareImpeachHeader (h : option Header)
| BroadcastCommitImpeachHeader (h : option Header)
| BroadcastValidateImpeachBlock (b : option Block).
Arguments BroadcastPreprepareBlock {Block} _.
Arguments BroadcastPrepareHeader {Block} _.
Arguments BroadcastCommitHeader {Block} _.
Arguments BroadcastValidateBlock {Block} _.
Arguments BroadcastPreprepareImpeachBlock {Block} _.
Arguments BroadcastPrepareImpeachHeader {Block} _.
Arguments BroadcastCommitImpeachHeader {Block} _.
Arguments BroadcastValidateImpeachBlock {Block} _.

End Relay.

Section BroadcastRecord.

Variable Block : Type.
Variable boh_Number : BlockOrHeader Block -> Z.
Variable boh_Hash : BlockOrHeader Block -> Z.

(** The [lru.ARCCache] of the record, with [Add] and [Get]; a look-up
    changes the order kept in the cache, so it hands the cache back. *)
Variable Cache : Type.
Variable cache_Add : Cache -> msgID -> bool -> Cache.
Variable cache_Get : Cache -> msgID -> option bool * Cache.

Definition markAsBroadcasted (br : Cache) (number hash : Z) (code : MsgCode) (msg : Msg)
  : Cache :=
  cache_Add br (newMsgID number hash code msg) true.

Definition ifBroadcasted (br : Cache) (number hash : Z) (code : MsgCode) (msg : Msg)
  : bool * Cache :=
  let '(found, br') := cache_Get br (newMsgID number hash code msg) in
  (match found with
   | Some broadcasted => broadcasted
   | None => false
   end, br').

Definition reBroadcast (br : Cache) (input : BlockOrHeader Block) (code : MsgCode)
           (msg : Msg) : list (Relay.call Block) * Cache :=
  let '(done, br1) := ifBroadcasted br (boh_Number input) (boh_Hash input) code msg in
  if negb done then
    let calls :=
      match code with
      | PreprepareMsgCode => [Relay.BroadcastPreprepareBlock (block input)]
      | PrepareMsgCode => [Relay.BroadcastPrepareHeader (header input)]
      | CommitMsgCode => [Relay.BroadcastCommitHeader (header input)]
      | ValidateMsgCode => [Relay.BroadcastValidateBlock (block input)]
      | ImpeachPreprepareMsgCode => [Relay.BroadcastPreprepareImpeachBlock (block input)]
      | ImpeachPrepareMsgCode => [Relay.BroadcastPrepareImpeachHeader (header input)]
      | ImpeachCommitMsgCode => [Relay.BroadcastCommitImpeachHeader (header input)]
      | ImpeachValidateMsgCode => [Relay.BroadcastValidateImpeachBlock (block input)]
      | _ => []
      end in
    (calls, markAsBroadcasted br1 (boh_Number input) (boh_Hash input) code msg)
  else ([], br1).

End BroadcastRecord.

(** ** Properties used in the statements *)

(** The configuration is in the range where [int(Epoch)] is [Epoch]. *)
Definition config_in_range (c : DporConfig) : Prop := 0 < Epoch c < 2 ^ 63.

(** [follows n hs]: the numbers of [hs] count up from [n + 1], in
    [uint64] arithmetic. *)
Fixpoint follows (n : Z) (hs : list Header) : Prop :=
  match hs with
  | [] => True
  | h :: rest => big_Uint64 (Number h) = wrap64 (n + 1) /\ follows (big_Uint64 (Number h)) rest
  end.

(** [linked hash_of ph hs]: every header names the hash of its
    predecessor as parent, the first one naming [ph]. *)
Fixpoint linked (hash_of : Header -> Z) (ph : Z) (hs : list Header) : Prop :=
  match hs with
  | [] => True
  | h :: rest => ParentHash h = ph /\ linked hash_of (hash_of h) rest
  end.

(** The number of committee entries with a signature in a cache entry. *)
Definition signed_entries (s : gmap Z (list byte)) (committee : list Z) : Z :=
  Z.of_nat (length (filter (fun a => is_Some (s !! a)) committee)).

(** The number of committee entries with a signature cached under the
    hash of a header. *)
Definition cached_count (hash_of : Header -> Z) (cache : gmap Z (gmap Z (list byte)))
           (h : Header) (committee : list Z) : Z :=
  match cache !! hash_of h with
  | Some s => signed_entries s committee
  | None => 0
  end.

(** An effect started for the output of the state machine. *)
Definition is_output_effect {Block RemoteSigner} (e : effect Block RemoteSigner) : Prop :=
  match e with
  | SyncFrom _ | CallFSM _ _ | AddUnknownAncestorBlock _ => False
  | _ => True
  end.

(** A header whose number is a checkpoint for [applyHeader]. *)
Definition is_checkpoint (h : Header) : bool :=
  big_Uint64 (Number h) mod checkpointInterval =? 0.

(** The last checkpoint header of a run, [acc] if there is none. *)
Fixpoint last_checkpoint (acc : option Header) (hs : list Header) : option Header :=
  match hs with
  | [] => acc
  | h :: rest => last_checkpoint (if is_checkpoint h then Some h else acc) rest
  end.

(** [put_all ops m]: the assignments [m[a] = sig] of [ops], in order. *)
Definition put_all (ops : list (Z * list byte)) (m : gmap Z (list byte))
  : gmap Z (list byte) :=
  foldl (fun acc op => <[fst op := snd op]> acc) m ops.

(** [cache_puts hash ops c]: the cache after the assignments [ops] to the
    entry of [hash], which is created when it is missing; no assignment,
    no change. *)
Definition cache_puts (hash : Z) (ops : list (Z * list byte))
           (c : gmap Z (gmap Z (list byte))) : gmap Z (gmap Z (list byte)) :=
  match ops with
  | [] => c
  | _ => <[hash := put_all ops (default ∅ (c !! hash))]> c
  end.

Section SlotSigs.

Variable crypto_Ecrecover : Z -> list byte -> list byte + error.
Variable pubkey_address : list byte -> Z.

(** What the slots [i, i + todo) of a signature vector recover to under
    a digest: the signers with their signatures, up to the first slot
    that fails to recover, and that failure. *)
Fixpoint slot_sigs (todo : nat) (i : Z) (digest : Z) (data : list byte)
  : list (Z * list byte) * option error :=
  match todo with
  | O => ([], None)
  | S todo' =>
      let sig := take (Z.to_nat extraSeal) (drop (Z.to_nat (i * extraSeal)) data) in
      if bool_decide (sig = make_slice "000"%byte extraSeal)
      then slot_sigs todo' (i + 1) digest data
      else
        match crypto_Ecrecover digest sig with
        | inr e => ([], Some e)
        | inl pubkey =>
            let rest := slot_sigs todo' (i + 1) digest data in
            ((pubkey_address pubkey, sig) :: fst rest, snd rest)
        end
  end.

End SlotSigs.

(** The value the assignments [ops] leave under the key [k], if any of
    them is to [k]. *)
Fixpoint last_put (k : Z) (ops : list (Z * list byte)) : option (list byte) :=
  match ops with
  | [] => None
  | op :: rest =>
      match last_put k rest with
      | Some v => Some v
      | None => if decide (fst op = k) then Some (snd op) else None
      end
  end.

(** ** Concrete collaborators for the examples

    A hash that separates the headers used below, an election that
    returns [viewLength] addresses counting up from the seed, and a
    signature scheme in which the first byte of a signature names its
    signer. *)

Definition ex_Hash (h : Header) : Z :=
  Number h * 1000 + Time h * 10 + Z.of_nat (length (Extra h)).

Definition ex_Elect (rpts : list RPT) (seed viewLength : Z) : list Z :=
  map (fun i => seed + Z.of_nat i) (seq 0 (Z.to_nat viewLength)).

Definition ex_rlpKeccak256 (items : list rlp_item) : Z :=
  Z.of_nat (length items).

Definition ex_Ecrecover (h : Z) (sig : list byte) : list byte + error :=
  match sig with
  | b :: _ => inl ["004"%byte; b]
  | [] => inr (errOther 1)
  end.

Definition ex_pubkey_address (pubkey : list byte) : Z :=
  match pubkey with
  | _ :: b :: _ => Z.of_N (Byte.to_N b)
  | _ => 0
  end.

Definition ex_DecodedExtra2 (h : Header) : list byte + error := inl (Extra2 h).

Definition ex_EncodeToExtra2 (h : Header) (data : list byte) : Header + error :=
  inl (set_Extra2 h data).

Definition ex_IsLeaderOf (s : DporSnapshot) (a number : Z) : bool * option error :=
  match isLeader s a number with
  | Ret r => r
  | Panic => (false, None)
  end.

Definition ex_header (number time : Z) (difficulty : Z) (extra extra2 : list byte) : Header :=
  mkHeader 0 0 0 0 0 [] difficulty number 0 0 time extra extra2 0 [].

Definition ex_config (epoch : Z) : DporConfig := mkConfig 1 epoch 1.

(** The genesis snapshots that [newSnapshot] builds over three signers
    with epoch length three, and over two signers with epoch length four,
    where two slots stay at the zero address; and a run of five
    headers. *)
Definition ex_snap3 : DporSnapshot :=
  mkSnapshot (ex_config 3) 0 77 [11; 12; 13] [] ∅.

Definition ex_snap_padded : DporSnapshot :=
  mkSnapshot (ex_config 4) 0 77 [11; 12; zeroAddress; zeroAddress] [] ∅.

Definition ex_chain : list Header :=
  map (fun n => ex_header n (100 + n) 1 [] []) [1; 2; 3; 4; 5].

(** The helper's view of the snapshot, read off the snapshot above, with
    every parent resolving to [ex_snap3]. *)
Definition ex_SignersOf (s : DporSnapshot) (number : Z) : list Z := signers s.

Definition ex_IsSignerOf (s : DporSnapshot) (a number : Z) : bool := isSigner s a.

Definition ex_SignerRoundOf (s : DporSnapshot) (a number : Z) : Z * option error :=
  signerRound s a.

Definition ex_snapshot (number hash : Z) (parents : list Header) : DporSnapshot + error :=
  inl ex_snap3.

Definition ex_diffInTurn : Z := 2.
Definition ex_diffNoTurn : Z := 1.

(** A 65-byte signature by the signer named by [b]. *)
Definition ex_sig (b : byte) : list byte := b :: replicate 64 "000"%byte.

Definition ex_signFn (a h : Z) : list byte + error :=
  match Byte.of_N (Z.to_N a) with
  | Some b => inl (ex_sig b)
  | None => inr (errOther 2)
  end.

(** An engine in normal mode with epoch length three, signing as [12],
    that has signed nothing yet. *)
Definition ex_dpor (sigs : gmap Z (gmap Z (list byte))) : Dpor :=
  mkDpor (ex_config 3) sigs ∅ 12 ex_signFn NormalMode 0.

(** Headers of height one: sealed by [11], the leader of that height,
    with three and with two committee signatures; and sealed by [12]. *)
Definition ex_sealed3 : Header :=
  ex_header 1 101 ex_diffInTurn (ex_sig "011")
            (ex_sig "011" ++ ex_sig "012" ++ ex_sig "013").

Definition ex_sealed2 : Header :=
  ex_header 1 102 ex_diffInTurn (ex_sig "011")
            (ex_sig "011" ++ ex_sig "012" ++ replicate 65 "000"%byte).


(** A header of height one sealed by [11] with an empty signature
    vector, and a cache that already holds the signatures of [12] and
    [13] for it. *)
Definition ex_sealed0 : Header := ex_header 1 104 ex_diffInTurn (ex_sig "011") [].

Definition ex_cache_sealed0 : gmap Z (gmap Z (list byte)) :=
  {[ ex_Hash ex_sealed0 := {[ 12 := ex_sig "012"; 13 := ex_sig "013" ]} ]}.

(** Two headers of height seven with different hashes, and a cache that
    knows both. *)
Definition ex_seven_a : Header := ex_header 7 201 ex_diffInTurn (ex_sig "011") [].
Definition ex_seven_b : Header := ex_header 7 202 ex_diffInTurn (ex_sig "011") [].

Definition ex_cache_seven : gmap Z (gmap Z (list byte)) :=
  <[ex_Hash ex_seven_a := {[11 := ex_sig "011"]}]>
    (<[ex_Hash ex_seven_b := {[11 := ex_sig "011"]}]> ∅).

(** A handler whose blocks and peers are numbers, whose decoder reads the
    block number off the payload length, and whose state machine misses
    the ancestor of everything. *)
Definition ex_RecoverBlockFromMsg (msg : Msg) (p : option Z) : Z + error :=
  inl (Z.of_nat (length (Payload msg))).

Definition ex_RecoverHeaderFromMsg (msg : Msg) (p : option Z) : Header + error :=
  inl (ex_header (Z.of_nat (length (Payload msg))) 0 1 [] []).

Definition ex_boh_Number (i : BlockOrHeader Z) : Z :=
  match block i, header i with
  | Some b, _ => b
  | None, Some h => big_Uint64 (Number h)
  | None, None => 0
  end.

Definition ex_FSM (st : unit) (i : BlockOrHeader Z) (c : MsgCode)
  : (option (list (BlockOrHeader Z)) * Action * MsgCode * option error) * unit :=
  ((None, NoAction, c, Some ErrUnknownAncestor), st).

Definition ex_msg (code : WireCode) (number : nat) : Msg :=
  mkMsg code (replicate number "000"%byte).





Definition ex_h1 : Header := ex_header 1 101 1 [] [].

Definition ex_h4 : Header := ex_header 4 104 1 [] [].

Definition ex_after5 : DporSnapshot :=
  mkSnapshot (ex_config 3) 5 6050 [5040; 5041; 5042] stubCandidates ∅.

Definition ex_cache_sealed2 : gmap Z (gmap Z (list byte)) :=
  {[ ex_Hash ex_sealed2 := {[ 11 := ex_sig "011"; 12 := ex_sig "012" ]} ]}.

Definition ex_allSigs : list byte :=
  ex_sig "011" ++ ex_sig "012" ++ replicate 65 "000"%byte.

(** The collaborators above put together, for the instances at the end. *)
Definition ex_ecrecover : Header -> gmap Z (gmap Z (list byte)) ->
                          outcome (Z * list Z * option error * gmap Z (gmap Z (list byte))) :=
  ecrecover ex_Hash ex_rlpKeccak256 ex_Ecrecover ex_pubkey_address ex_DecodedExtra2.

Definition ex_verifySeal : Dpor -> Header -> list Header -> outcome (option error * Dpor) :=
  verifySeal ex_Hash ex_rlpKeccak256 ex_Ecrecover ex_pubkey_address ex_DecodedExtra2
             DporSnapshot ex_SignersOf ex_IsLeaderOf ex_snapshot ex_diffInTurn ex_diffNoTurn.

Definition ex_signHeader : Dpor -> Header -> outcome (option error * Dpor * Header) :=
  signHeader ex_Hash ex_rlpKeccak256 ex_EncodeToExtra2 DporSnapshot ex_SignersOf
             ex_IsSignerOf ex_SignerRoundOf ex_snapshot.

(** Addresses written as 20 bytes, a chain that knows no header, and the
    clock at 200. *)
Definition ex_address_bytes (a : Z) : list byte :=
  replicate 19 "000"%byte ++ [default "000"%byte (Byte.of_N (Z.to_N a))].

Definition ex_GetHeader (hash number : Z) : option Header := None.

Definition ex_now : Z := 200.

Definition ex_verifyCascadingFields
  : Dpor -> Header -> list Header -> outcome (option error * Dpor) :=
  verifyCascadingFields ex_Hash ex_rlpKeccak256 ex_Ecrecover ex_pubkey_address
                        ex_DecodedExtra2 DporSnapshot ex_SignersOf ex_IsLeaderOf
                        ex_snapshot ex_diffInTurn ex_diffNoTurn ex_address_bytes
                        ex_GetHeader.

Definition ex_verifyHeader : Dpor -> Header -> list Header -> outcome (option error * Dpor) :=
  verifyHeader ex_Hash ex_rlpKeccak256 ex_Ecrecover ex_pubkey_address
               ex_DecodedExtra2 DporSnapshot ex_SignersOf ex_IsLeaderOf
               ex_snapshot ex_diffInTurn ex_diffNoTurn ex_address_bytes
               ex_GetHeader ex_now.

(** The committee of [ex_snap3] as it stands in the extra-data. *)
Definition ex_committee_bytes : list byte :=
  ex_address_bytes 11 ++ ex_address_bytes 12 ++ ex_address_bytes 13.

(** A genesis header with vanity and seal and nothing in between, and a
    header of height one on top of it: vanity, committee and the seal of
    [11] in the extra-data, the signatures of the whole committee in the
    signature vector. *)
Definition ex_genesis : Header :=
  ex_header 0 100 0 (replicate 97 "000"%byte) [].

Definition ex_full : Header :=
  mkHeader (ex_Hash ex_genesis) 0 0 0 0 [] ex_diffInTurn 1 0 0 101
           (replicate 32 "000"%byte ++ ex_committee_bytes ++ ex_sig "011")
           (ex_sig "011" ++ ex_sig "012" ++ ex_sig "013") 0 [].

(** The same header a second too early for the period. *)
Definition ex_early : Header :=
  mkHeader (ex_Hash ex_genesis) 0 0 0 0 [] ex_diffInTurn 1 0 0 100
           (replicate 32 "000"%byte ++ ex_committee_bytes ++ ex_sig "011")
           (ex_sig "011" ++ ex_sig "012" ++ ex_sig "013") 0 [].

Definition ex_three_sigs : gmap Z (list byte) :=
  {[ 11 := ex_sig "011"; 12 := ex_sig "012"; 13 := ex_sig "013" ]}.

Definition ex_cache_full : gmap Z (gmap Z (list byte)) :=
  {[ ex_Hash ex_full := ex_three_sigs ]}.

Definition ex_cache_sealed3 : gmap Z (gmap Z (list byte)) :=
  {[ ex_Hash ex_sealed3 := ex_three_sigs ]}.

(** State machines that fail with an error of their own while handing
    out an output, and that hand out an empty output to broadcast. *)
Definition ex_FSM_failing (st : unit) (i : BlockOrHeader Z) (c : MsgCode)
  : (option (list (BlockOrHeader Z)) * Action * MsgCode * option error) * unit :=
  ((Some [i], BroadcastMsgAction, PrepareMsgCode, Some (errOther 7)), st).

Definition ex_FSM_empty (st : unit) (i : BlockOrHeader Z) (c : MsgCode)
  : (option (list (BlockOrHeader Z)) * Action * MsgCode * option error) * unit :=
  ((Some [], BroadcastMsgAction, PrepareMsgCode, None), st).

(** A record of broadcasts that forgets nothing. *)
Definition ex_cache_Add (c : list (msgID * bool)) (k : msgID) (v : bool)
  : list (msgID * bool) := (k, v) :: c.

Fixpoint ex_cache_find (c : list (msgID * bool)) (k : msgID) : option bool :=
  match c with
  | [] => None
  | (k', v) :: rest => if decide (k' = k) then Some v else ex_cache_find rest k
  end.

Definition ex_cache_Get (c : list (msgID * bool)) (k : msgID)
  : option bool * list (msgID * bool) :=
  (ex_cache_find c k, c).

Definition ex_boh_Hash (i : BlockOrHeader Z) : Z := 0.

Definition ex_reBroadcast
  : list (msgID * bool) -> BlockOrHeader Z -> MsgCode -> Msg ->
    list (Relay.call Z) * list (msgID * bool) :=
  reBroadcast Z ex_boh_Number ex_boh_Hash (list (msgID * bool)) ex_cache_Add ex_cache_Get.

(** * Facts *)

(** ** Integers and slices *)

(** Case analysis on the first [<?] test of the goal. *)
Ltac case_ltb :=
  match goal with
  | |- context [Z.ltb ?a ?b] => destruct (Z.ltb_spec a b)
  end.

Lemma toInt64_small (u : Z) : u < 2 ^ 63 -> toInt64 u = u.
Proof.
  intros Hu. unfold toInt64.
  case_ltb; [reflexivity | lia].
Qed.

Lemma wrap64_small (z : Z) : 0 <= z < 2 ^ 64 -> wrap64 z = z.
Proof. intros Hz. unfold wrap64. apply Z.mod_small. exact Hz. Qed.

Lemma copy_slice_same_length {A} (dst src : list A) :
  length src = length dst -> copy_slice dst src = src.
Proof.
  intros Hlen. unfold copy_slice.
  rewrite <- Hlen, firstn_all, (drop_ge dst) by lia.
  apply app_nil_r.
Qed.

Lemma length_copy_slice {A} (dst src : list A) :
  length (copy_slice dst src) = length dst.
Proof.
  unfold copy_slice. rewrite length_app, length_take, length_drop. lia.
Qed.

Lemma length_make_slice {A} (z : A) (n : Z) :
  length (make_slice z n) = Z.to_nat n.
Proof. unfold make_slice. apply length_replicate. Qed.

(** ** The snapshot *)

Lemma copy_Recents_id (m : gmap Z Z) :
  map_fold (fun block signer acc => <[block := signer]> acc) ∅ m = m.
Proof.
  apply (map_fold_weak_ind (fun r m' => r = m')); [reflexivity |].
  intros i x m' r _ ->. reflexivity.
Qed.




(** What a copy holds. *)
Lemma copy_fields (s c : DporSnapshot) :
  copy s = Ret c ->
  0 <= toInt64 (Epoch (config s)) /\
  config c = config s /\
  sNumber c = sNumber s /\
  sHash c = sHash s /\
  Signers c = copy_slice (make_slice zeroAddress (Epoch (config s))) (Signers s) /\
  Candidates c = Candidates s /\
  Recents c = Recents s.
Proof.
  unfold copy. case_ltb; [discriminate |]. intros [= <-]. simpl.
  rewrite copy_Recents_id.
  rewrite (copy_slice_same_length _ (Candidates s))
    by (rewrite length_make_slice; lia).
  repeat split; solve [reflexivity | lia].
Qed.




Lemma signerRound_from_found (l : list Z) (a r r' : Z) :
  signerRound_from r l a = (r', None) ->
  r <= r' /\ l !! Z.to_nat (r' - r) = Some a.
Proof.
  revert r. induction l as [| x l IH]; intros r; simpl.
  - discriminate.
  - destruct (decide (x = a)) as [-> | Hne].
    + intros [= <-]. rewrite Z.sub_diag. split; [lia | reflexivity].
    + intros H. destruct (IH _ H) as [Hle Hl]. split; [lia |].
      replace (Z.to_nat (r' - r)) with (S (Z.to_nat (r' - (r + 1)))) by lia.
      exact Hl.
Qed.

Lemma signerRound_from_missing (l : list Z) (a r r' : Z) (e : error) :
  signerRound_from r l a = (r', Some e) -> a ∉ l.
Proof.
  revert r. induction l as [| x l IH]; intros r; simpl.
  - intros _. apply not_elem_of_nil.
  - destruct (decide (x = a)) as [-> | Hne]; [discriminate |].
    intros H. apply not_elem_of_cons. split; [congruence | eauto].
Qed.

Lemma signerRound_from_NoDup (l : list Z) (a r : Z) (i : nat) :
  NoDup l -> l !! i = Some a ->
  signerRound_from r l a = (r + Z.of_nat i, None).
Proof.
  revert r i. induction l as [| x l IH]; intros r i Hnd Hi; [discriminate |].
  apply NoDup_cons in Hnd as [Hx Hnd]. simpl.
  destruct i as [| i]; simpl in Hi.
  - injection Hi as ->. rewrite decide_True by reflexivity.
    f_equal. lia.
  - rewrite decide_False.
    + rewrite (IH (r + 1) i Hnd Hi). f_equal. lia.
    + intros ->. apply Hx. eapply list_elem_of_lookup_2. exact Hi.
Qed.

(** C6 (as amended): for a snapshot whose signer list holds no address
    twice and whose configuration is in range, [isLeader addr 0] is the
    genesis error, and for [number > 0] the call returns, its boolean
    being [true] exactly when [addr] is the signer at position
    [(number - 1) mod Epoch]. *)
Theorem isLeader_position (s : DporSnapshot) (addr number : Z) :
  NoDup (Signers s) ->
  config_in_range (config s) ->
  isLeader s addr 0 = Ret (false, Some errGenesisBlockNumber) /\
  (0 < number ->
   exists (b : bool) (err : option error),
     isLeader s addr number = Ret (b, err) /\
     (b = true <->
      Signers s !! Z.to_nat ((number - 1) mod Epoch (config s)) = Some addr)).
Proof.
  intros Hnd [Hpos Hlt]. split; [reflexivity |].
  intros Hnum. unfold isLeader.
  destruct (Z.eqb_spec number 0) as [-> | _]; [lia |].
  assert (Hp : 0 <= (number - 1) mod Epoch (config s) < Epoch (config s))
    by (apply Z.mod_pos_bound; lia).
  set (p := (number - 1) mod Epoch (config s)) in *.
  destruct (signerRound s addr) as [round [e |]] eqn:Hround.
  - exists false, (Some e). split; [reflexivity |].
    split; [discriminate |]. intros Hat. exfalso.
    apply signerRound_from_missing in Hround. apply Hround.
    eapply list_elem_of_lookup_2. exact Hat.
  - destruct (Z.eqb_spec (Epoch (config s)) 0) as [E0 | _]; [lia |].
    exists (round =? toInt64 p), None. split; [reflexivity |].
    rewrite toInt64_small by lia. rewrite Z.eqb_eq.
    pose proof (signerRound_from_found _ _ _ _ Hround) as [Hle Hat].
    rewrite Z.sub_0_r in Hat. unfold signers in Hat. split.
    + intros <-. exact Hat.
    + intros Hp'.
      unfold signerRound, signers in Hround.
      rewrite (signerRound_from_NoDup _ _ 0 _ Hnd Hp') in Hround.
      injection Hround as <-. lia.
Qed.

(** C10: applying no headers returns the snapshot itself. *)
Theorem apply_nil_identity (header_Hash : Header -> Z)
        (Elect : list RPT -> Z -> Z -> list Z) (s : DporSnapshot) :
  apply header_Hash Elect s [] = Ret (inl s).
Proof. reflexivity. Qed.

Section SnapshotFacts.

Variable header_Hash : Header -> Z.
Variable Elect : list RPT -> Z -> Z -> list Z.

Lemma applyHeader_no_error (s : DporSnapshot) (h : Header) :
  snd (applyHeader header_Hash Elect s h) = None.
Proof.
  unfold applyHeader. simpl.
  destruct (big_Uint64 (Number h) mod checkpointInterval =? 0); reflexivity.
Qed.

Lemma applyHeader_fields (s : DporSnapshot) (h : Header) :
  let s' := fst (applyHeader header_Hash Elect s h) in
  config s' = config s /\
  sNumber s' = big_Uint64 (Number h) /\
  sHash s' = header_Hash h /\
  Candidates s' = stubCandidates /\
  Recents s' = Recents s.
Proof.
  unfold applyHeader. simpl.
  destruct (big_Uint64 (Number h) mod checkpointInterval =? 0); simpl; auto.
Qed.

Lemma applyHeader_Signers_int (s : DporSnapshot) (h : Header) :
  Signers (fst (applyHeader header_Hash Elect s h)) =
    if is_checkpoint h
    then Elect stubRpts (toInt64 (header_Hash h mod 2 ^ 64))
               (toInt64 (Epoch (config s)))
    else Signers s.
Proof.
  unfold applyHeader, is_checkpoint. simpl.
  destruct (big_Uint64 (Number h) mod checkpointInterval =? 0); reflexivity.
Qed.

(** C7: a header at a checkpoint number makes [applyHeader] replace the
    signers by the election seeded with the low 64 bits of the header
    hash (as [int64]) and with the epoch length as view length; any
    other header leaves the signers as they are.  The epoch length is
    below [2^63], where [int(Epoch)] is [Epoch]. *)
Theorem applyHeader_Signers (s : DporSnapshot) (h : Header) :
  Epoch (config s) < 2 ^ 63 ->
  Signers (fst (applyHeader header_Hash Elect s h)) =
    if big_Uint64 (Number h) mod checkpointInterval =? 0
    then Elect stubRpts (toInt64 (header_Hash h mod 2 ^ 64)) (Epoch (config s))
    else Signers s.
Proof.
  intros Hlt. unfold applyHeader. simpl.
  destruct (big_Uint64 (Number h) mod checkpointInterval =? 0); simpl.
  - rewrite toInt64_small by exact Hlt. reflexivity.
  - reflexivity.
Qed.

End SnapshotFacts.

Lemma follows_dec (n : Z) (hs : list Header) : {follows n hs} + {~ follows n hs}.
Proof.
  revert n. induction hs as [| h hs IH]; intros n; simpl.
  - left. exact I.
  - destruct (decide (big_Uint64 (Number h) = wrap64 (n + 1))) as [Heq | Hne].
    + destruct (IH (big_Uint64 (Number h))) as [Hf | Hnf].
      * left. split; assumption.
      * right. intros [_ Hf]. contradiction.
    + right. intros [Heq _]. contradiction.
Qed.

Section ApplyFacts.

Variable header_Hash : Header -> Z.
Variable Elect : list RPT -> Z -> Z -> list Z.

Local Abbreviation applyHeader := (applyHeader header_Hash Elect).
Local Abbreviation apply_loop := (apply_loop header_Hash Elect).
Local Abbreviation apply := (apply header_Hash Elect).

Lemma headers_sane_follows (h : Header) (rest : list Header) :
  headers_sane (h :: rest) = true <-> follows (big_Uint64 (Number h)) rest.
Proof.
  revert h. induction rest as [| h' rest IH]; intros h.
  - simpl. tauto.
  - change (headers_sane (h :: h' :: rest))
      with (if decide (big_Uint64 (Number h') <> wrap64 (big_Uint64 (Number h) + 1))
            then false else headers_sane (h' :: rest)).
    destruct (decide (big_Uint64 (Number h') <> wrap64 (big_Uint64 (Number h) + 1)))
      as [Hne | Heq].
    + split; [discriminate |]. intros [Hn _]. contradiction.
    + apply dec_stable in Heq. rewrite IH. simpl. tauto.
Qed.

Lemma apply_loop_cons (snap : DporSnapshot) (h : Header) (rest : list Header) :
  apply_loop snap (h :: rest) = apply_loop (fst (applyHeader snap h)) rest.
Proof.
  simpl. pose proof (applyHeader_no_error header_Hash Elect snap h) as He.
  destruct (applyHeader snap h) as [snap' err]. simpl in *. subst err.
  reflexivity.
Qed.

Lemma apply_loop_total (snap : DporSnapshot) (hs : list Header) :
  exists snap', apply_loop snap hs = inl snap'.
Proof.
  revert snap. induction hs as [| h hs IH]; intros snap.
  - exists snap. reflexivity.
  - rewrite apply_loop_cons. apply IH.
Qed.


(** After the loop the working copy already carries the number and hash
    of the last header. *)
Lemma apply_loop_last (snap snap' : DporSnapshot) (hs : list Header) (hl : Header) :
  apply_loop snap hs = inl snap' ->
  last hs = Some hl ->
  sNumber snap' = big_Uint64 (Number hl) /\ sHash snap' = header_Hash hl.
Proof.
  revert snap. induction hs as [| h hs IH]; intros snap; [discriminate |].
  rewrite apply_loop_cons. destruct hs as [| h' hs].
  - simpl. intros [= <-] [= <-].
    pose proof (applyHeader_fields header_Hash Elect snap h) as (_ & Hn & Hh & _).
    split; assumption.
  - intros Hloop Hlast. eapply IH; [exact Hloop |].
    rewrite last_cons_cons in Hlast. exact Hlast.
Qed.

Lemma apply_loop_config (snap snap' : DporSnapshot) (hs : list Header) :
  apply_loop snap hs = inl snap' -> config snap' = config snap.
Proof.
  revert snap. induction hs as [| h hs IH]; intros snap.
  - simpl. intros [= ->]. reflexivity.
  - rewrite apply_loop_cons. intros H. rewrite (IH _ H).
    apply (applyHeader_fields header_Hash Elect snap h).
Qed.

Lemma snapshot_eta (s : DporSnapshot) (n h : Z) :
  sNumber s = n -> sHash s = h ->
  mkSnapshot (config s) n h (Signers s) (Candidates s) (Recents s) = s.
Proof. destruct s; simpl; intros <- <-; reflexivity. Qed.

(** On a numbered sequence [apply] is the loop over the copy. *)
Lemma apply_follows (s : DporSnapshot) (hs : list Header) :
  hs <> [] -> follows (sNumber s) hs ->
  apply s hs = do! c <- copy s ; Ret (apply_loop c hs).
Proof.
  destruct hs as [| h0 rest]; [congruence |]. intros _ [H0 Hrest].
  unfold apply.
  apply headers_sane_follows in Hrest. rewrite Hrest. simpl negb. cbv iota.
  rewrite decide_False by (intros Hne; apply Hne; exact H0).
  destruct (copy s) as [| c]; [reflexivity |]. unfold obind.
  destruct (apply_loop_total c (h0 :: rest)) as [snap Hsnap].
  rewrite Hsnap.
  destruct (last (h0 :: rest)) as [hl |] eqn:Hlast.
  - destruct (apply_loop_last _ _ _ _ Hsnap Hlast) as [Hn Hh].
    rewrite snapshot_eta by assumption. reflexivity.
  - reflexivity.
Qed.

Lemma apply_not_follows (s : DporSnapshot) (hs : list Header) :
  ~ follows (sNumber s) hs -> apply s hs = Ret (inr errInvalidVotingChain).
Proof.
  destruct hs as [| h0 rest]; [simpl; tauto |]. intros Hnf.
  unfold apply.
  destruct (headers_sane (h0 :: rest)) eqn:Hsane; [| reflexivity].
  simpl negb. cbv iota.
  destruct (decide (big_Uint64 (Number h0) <> wrap64 (sNumber s + 1)))
    as [_ | Heq]; [reflexivity |].
  exfalso. apply Hnf. apply dec_stable in Heq. split; [exact Heq |].
  apply headers_sane_follows. exact Hsane.
Qed.

(** What [apply] went through when it returned a snapshot for a run of
    headers. *)
Lemma apply_inl_inv (s s' : DporSnapshot) (hs : list Header) :
  hs <> [] ->
  apply s hs = Ret (inl s') ->
  follows (sNumber s) hs /\
  exists c, copy s = Ret c /\ apply_loop c hs = inl s'.
Proof.
  intros Hne Happ.
  destruct (follows_dec (sNumber s) hs) as [Hf | Hnf].
  2:{ rewrite (apply_not_follows _ _ Hnf) in Happ. discriminate. }
  split; [exact Hf |].
  rewrite apply_follows in Happ by assumption.
  destruct (copy s) as [| c]; [discriminate |].
  exists c. split; [reflexivity |]. simpl in Happ. congruence.
Qed.

(** C3 (as amended): [apply] returns an error exactly when the header
    numbers do not count up from the snapshot's number plus one, one by
    one, in [uint64] arithmetic, and the error is the invalid-chain
    error.  Parent hashes play no part: a run whose numbers follow is not
    turned down, whatever it names as parents. *)
Theorem apply_accepts_numbered (s : DporSnapshot) (hs : list Header) :
  ((exists e, apply s hs = Ret (inr e)) <-> ~ follows (sNumber s) hs) /\
  (forall e, apply s hs = Ret (inr e) -> e = errInvalidVotingChain).
Proof.
  destruct (follows_dec (sNumber s) hs) as [Hf | Hnf].
  - assert (Hno : forall e, apply s hs <> Ret (inr e)).
    { intros e. destruct hs as [| h0 rest]; [discriminate |].
      rewrite apply_follows by (congruence || exact Hf).
      destruct (copy s) as [| c]; [discriminate |]. unfold obind.
      destruct (apply_loop_total c (h0 :: rest)) as [snap ->]. discriminate. }
    split.
    + split; [intros [e He]; destruct (Hno e He) | intros Hnf; contradiction].
    + intros e He. destruct (Hno e He).
  - rewrite (apply_not_follows _ _ Hnf). split.
    + split; [intros _; exact Hnf | intros _; eauto].
    + intros e [= <-]. reflexivity.
Qed.

Lemma apply_loop_Recents (snap snap' : DporSnapshot) (hs : list Header) :
  apply_loop snap hs = inl snap' -> Recents snap' = Recents snap.
Proof.
  revert snap. induction hs as [| h hs IH]; intros snap.
  - simpl. intros [= ->]. reflexivity.
  - rewrite apply_loop_cons. intros H. rewrite (IH _ H).
    apply (applyHeader_fields header_Hash Elect snap h).
Qed.

Lemma apply_loop_Candidates (snap snap' : DporSnapshot) (hs : list Header) :
  hs <> [] -> apply_loop snap hs = inl snap' -> Candidates snap' = stubCandidates.
Proof.
  revert snap. induction hs as [| h hs IH]; intros snap Hne; [congruence |].
  rewrite apply_loop_cons. destruct hs as [| h' hs].
  - simpl. intros [= <-].
    apply (applyHeader_fields header_Hash Elect snap h).
  - apply IH. discriminate.
Qed.

Lemma last_checkpoint_acc (acc : option Header) (hs : list Header) :
  last_checkpoint acc hs =
    match last_checkpoint None hs with
    | Some h => Some h
    | None => acc
    end.
Proof.
  revert acc. induction hs as [| h hs IH]; intros acc; [reflexivity |].
  simpl. rewrite (IH (if is_checkpoint h then Some h else acc)).
  rewrite (IH (if is_checkpoint h then Some h else None)).
  destruct (last_checkpoint None hs); [reflexivity |].
  destruct (is_checkpoint h); reflexivity.
Qed.

Lemma apply_loop_Signers (snap snap' : DporSnapshot) (hs : list Header) :
  apply_loop snap hs = inl snap' ->
  Signers snap' =
    match last_checkpoint None hs with
    | Some h => Elect stubRpts (toInt64 (header_Hash h mod 2 ^ 64))
                      (toInt64 (Epoch (config snap)))
    | None => Signers snap
    end.
Proof.
  revert snap. induction hs as [| h hs IH]; intros snap.
  - simpl. intros [= <-]. reflexivity.
  - rewrite apply_loop_cons. intros Hloop. simpl last_checkpoint.
    pose proof (applyHeader_fields header_Hash Elect snap h) as (Hc & _).
    specialize (IH _ Hloop). rewrite Hc in IH.
    rewrite last_checkpoint_acc.
    destruct (last_checkpoint None hs); [exact IH |].
    rewrite IH, (applyHeader_Signers_int header_Hash Elect).
    destruct (is_checkpoint h); reflexivity.
Qed.


End ApplyFacts.


Section ApplySplit.

Variable header_Hash : Header -> Z.
Variable Elect : list RPT -> Z -> Z -> list Z.

Local Abbreviation apply_loop := (apply_loop header_Hash Elect).
Local Abbreviation apply := (apply header_Hash Elect).


End ApplySplit.

(** ** Signature hash and recovery *)

Lemma count_sigs_signed_entries (s : gmap Z (list byte)) (committee : list Z) (acc : Z) :
  0 <= acc ->
  acc + Z.of_nat (length committee) < 2 ^ 64 ->
  count_sigs s committee acc = acc + signed_entries s committee.
Proof.
  unfold signed_entries.
  revert acc. induction committee as [| a committee IH]; intros acc Hacc Hlen.
  - simpl. lia.
  - simpl in Hlen. simpl count_sigs. rewrite filter_cons.
    destruct (s !! a) as [sig |] eqn:Ha.
    + rewrite decide_True by eauto.
      rewrite wrap64_small by lia. rewrite IH by lia. simpl length. lia.
    + rewrite decide_False by (apply is_Some_None).
      apply IH; lia.
Qed.

Lemma signed_entries_bounds (s : gmap Z (list byte)) (committee : list Z) :
  0 <= signed_entries s committee <= Z.of_nat (length committee).
Proof.
  unfold signed_entries. pose proof (length_filter (fun a => is_Some (s !! a)) committee).
  lia.
Qed.

Lemma percentagePBFT_exact (n N : Z) :
  0 <= n -> 3 * n < 2 ^ 64 -> 0 <= N < 2 ^ 63 ->
  percentagePBFT n N = true <-> 3 * n > 2 * N.
Proof.
  intros Hn Hn3 HN. unfold percentagePBFT, pctA, pctB.
  rewrite !wrap64_small by lia. rewrite Z.gtb_gt. reflexivity.
Qed.

Section UtilFacts.

Variable header_Hash : Header -> Z.
Variable rlpKeccak256 : list rlp_item -> Z.
Variable crypto_Ecrecover : Z -> list byte -> list byte + error.
Variable pubkey_address : list byte -> Z.
Variable DecodedExtra2 : Header -> list byte + error.

Local Abbreviation recover :=
  (recover_loop rlpKeccak256 crypto_Ecrecover pubkey_address).
Local Abbreviation recover_all :=
  (ecrecover header_Hash rlpKeccak256 crypto_Ecrecover pubkey_address DecodedExtra2).

Lemma sigHash_long (h : Header) :
  65 <= Z.of_nat (length (Extra h)) ->
  exists d, sigHash rlpKeccak256 h = Ret d.
Proof.
  intros Hlen. unfold sigHash.
  case_ltb; [lia |].
  eexists. reflexivity.
Qed.

Lemma sigHash_short (h : Header) :
  Z.of_nat (length (Extra h)) < 65 -> sigHash rlpKeccak256 h = Panic.
Proof.
  intros Hlen. unfold sigHash.
  case_ltb; [reflexivity | lia].
Qed.

(** C4: a header with at least 65 bytes of extra-data keeps its
    signing digest when its last 65 bytes of extra-data and its
    signature vector are replaced: any header that agrees with it on
    the other fields and on the extra-data before the last 65 bytes has
    the same digest. *)
Theorem sigHash_ignores_seal_and_sigs (h : Header) (extra extra2 : list byte) :
  65 <= Z.of_nat (length (Extra h)) ->
  65 <= Z.of_nat (length extra) ->
  take (Z.to_nat (Z.of_nat (length extra) - 65)) extra =
  take (Z.to_nat (Z.of_nat (length (Extra h)) - 65)) (Extra h) ->
  exists d,
    sigHash rlpKeccak256 h = Ret d /\
    sigHash rlpKeccak256 (set_Extra (set_Extra2 h extra2) extra) = Ret d.
Proof.
  intros Hh He Hpre. unfold sigHash. simpl.
  do 2 (case_ltb; [lia |]).
  eexists. split; [reflexivity |]. rewrite Hpre. reflexivity.
Qed.

(** The loop keeps the cache entry of the header and does not panic
    once that entry exists and the extra-data holds a seal. *)
Lemma recover_keeps_entry (todo : nat) (i : Z) (h : Header) (data : list byte)
      (hash : Z) (acc : list Z) (cache : gmap Z (gmap Z (list byte))) :
  65 <= Z.of_nat (length (Extra h)) ->
  is_Some (cache !! hash) ->
  exists sg err cache',
    recover todo i h data hash acc cache = Ret (sg, err, cache') /\
    is_Some (cache' !! hash).
Proof.
  intros Hlen. revert i acc cache.
  induction todo as [| todo IH]; intros i acc cache Hc.
  - simpl. eauto.
  - simpl.
    destruct (bool_decide _); simpl negb; cbv iota; [apply IH; exact Hc |].
    destruct (sigHash_long h Hlen) as [d ->]. simpl.
    destruct (crypto_Ecrecover d _) as [pk | e]; [| eauto].
    unfold cache_put_sig. destruct Hc as [sigs Hsigs]. rewrite Hsigs. simpl.
    apply IH. rewrite lookup_insert_eq. eauto.
Qed.

Lemma ecrecover_returns (h : Header) (cache : gmap Z (gmap Z (list byte))) :
  exists r cache', recover_all h cache = Ret (r, cache').
Proof.
  unfold ecrecover.
  destruct (Z.ltb_spec (Z.of_nat (length (Extra h))) extraSeal) as [| Hlen];
    [eauto |].
  unfold extraSeal in Hlen.
  destruct (DecodedExtra2 h) as [data | e]; [| eauto].
  destruct (sigHash_long h Hlen) as [d ->]. simpl.
  destruct (crypto_Ecrecover d _) as [pk | e]; [| eauto].
  destruct (negb _); [eauto |].
  match goal with
  | |- context [recover ?t ?i h data ?hash ?acc ?c] =>
      destruct (recover_keeps_entry t i h data hash acc c Hlen)
        as (sg & err & cache' & -> & _)
  end.
  - destruct (cache !! header_Hash h); rewrite lookup_insert_eq; eauto.
  - simpl. destruct err; eauto.
Qed.

(** After a recovery without error the cache has an entry for the
    header. *)
Lemma ecrecover_caches (h : Header) (cache cache' : gmap Z (gmap Z (list byte)))
      (leader : Z) (sg : list Z) :
  recover_all h cache = Ret ((leader, sg, None), cache') ->
  is_Some (cache' !! header_Hash h).
Proof.
  unfold ecrecover.
  destruct (Z.ltb_spec (Z.of_nat (length (Extra h))) extraSeal) as [| Hlen];
    [discriminate |].
  unfold extraSeal in Hlen.
  destruct (DecodedExtra2 h) as [data | e]; [| discriminate].
  destruct (sigHash_long h Hlen) as [d ->]. simpl.
  destruct (crypto_Ecrecover d _) as [pk | e]; [| discriminate].
  destruct (negb _); [discriminate |].
  match goal with
  | |- context [recover ?t ?i h data ?hash ?acc ?c] =>
      destruct (recover_keeps_entry t i h data hash acc c Hlen)
        as (sg' & err & cache2 & -> & Hsome)
  end.
  - destruct (cache !! header_Hash h); rewrite lookup_insert_eq; eauto.
  - simpl. destruct err; intros [= <- <- <-] || intros [=]. exact Hsome.
Qed.

(** C9: [ecrecover] never panics, and on a header with fewer than 65
    bytes of extra-data, where [sigHash] would panic, it returns the
    missing-signature error and leaves the cache alone. *)
Theorem ecrecover_short_extra (h : Header) (cache : gmap Z (gmap Z (list byte))) :
  recover_all h cache <> Panic /\
  (Z.of_nat (length (Extra h)) < 65 ->
   sigHash rlpKeccak256 h = Panic /\
   recover_all h cache = Ret ((zeroAddress, [], Some errMissingSignature), cache)).
Proof.
  split.
  - destruct (ecrecover_returns h cache) as (r & cache' & ->). discriminate.
  - intros Hlen. split; [apply sigHash_short; exact Hlen |].
    unfold ecrecover, extraSeal.
    case_ltb; [reflexivity | lia].
Qed.

End UtilFacts.

(** ** Seal verification and signing *)

Section HelperFacts.

Variable header_Hash : Header -> Z.
Variable rlpKeccak256 : list rlp_item -> Z.
Variable crypto_Ecrecover : Z -> list byte -> list byte + error.
Variable pubkey_address : list byte -> Z.
Variable DecodedExtra2 : Header -> list byte + error.
Variable EncodeToExtra2 : Header -> list byte -> Header + error.
Variable Snap : Type.
Variable SignersOf : Snap -> Z -> list Z.
Variable IsLeaderOf : Snap -> Z -> Z -> bool * option error.
Variable IsSignerOf : Snap -> Z -> Z -> bool.
Variable SignerRoundOf : Snap -> Z -> Z -> Z * option error.
Variable snapshot : Z -> Z -> list Header -> Snap + error.
Variable diffInTurn diffNoTurn : Z.

Local Abbreviation recover_all :=
  (ecrecover header_Hash rlpKeccak256 crypto_Ecrecover pubkey_address DecodedExtra2).
Local Abbreviation verify_seal :=
  (verifySeal header_Hash rlpKeccak256 crypto_Ecrecover pubkey_address DecodedExtra2
              Snap SignersOf IsLeaderOf snapshot diffInTurn diffNoTurn).
Local Abbreviation sign_header :=
  (signHeader header_Hash rlpKeccak256 EncodeToExtra2 Snap SignersOf IsSignerOf
              SignerRoundOf snapshot).

Lemma acceptSigs_cached (h : Header) (cache : gmap Z (gmap Z (list byte)))
      (committee : list Z) (epochL : Z) :
  is_Some (cache !! header_Hash h) ->
  0 <= epochL < 2 ^ 63 ->
  3 * Z.of_nat (length committee) < 2 ^ 64 ->
  exists accept,
    acceptSigs header_Hash h cache committee epochL = (accept, None) /\
    (accept = true <-> 3 * cached_count header_Hash cache h committee > 2 * epochL).
Proof.
  intros [s Hs] HE Hlen. unfold acceptSigs, cached_count. rewrite Hs.
  eexists. split; [reflexivity |].
  pose proof (signed_entries_bounds s committee) as Hb.
  rewrite count_sigs_signed_entries by lia. rewrite Z.add_0_l.
  apply percentagePBFT_exact; lia.
Qed.


Lemma signHeader_engine_unchanged (dpor dpor' : Dpor) (h h' : Header)
      (r : option error) :
  sign_header dpor h = Ret (r, dpor', h') -> dpor' = dpor.
Proof.
  unfold signHeader, obind. intros H.
  repeat case_match; simplify_eq; reflexivity.
Qed.

(** C2 (what the code does instead): [signHeader] hands the engine back
    as it received it, so after one call a second call for any header
    finds the map of signed blocks as it was and returns what it would
    have returned had the first call never been made. *)
Theorem signHeader_forgets (dpor dpor1 dpor2 : Dpor) (h1 h1' h2 h2' : Header)
        (r1 r2 : option error) :
  sign_header dpor h1 = Ret (r1, dpor1, h1') ->
  sign_header dpor1 h2 = Ret (r2, dpor2, h2') ->
  signedBlocks dpor2 = signedBlocks dpor /\
  sign_header dpor h2 = Ret (r2, dpor2, h2').
Proof.
  intros H1 H2.
  apply signHeader_engine_unchanged in H1 as ->.
  pose proof (signHeader_engine_unchanged _ _ _ _ _ H2) as ->.
  split; [reflexivity | exact H2].
Qed.

End HelperFacts.

(** ** The handler *)

Section HandlerFacts.

Variable Block : Type.
Variable RemoteSigner : Type.
Variable FsmState : Type.
Variable RecoverBlockFromMsg : Msg -> option RemoteSigner -> Block + error.
Variable RecoverHeaderFromMsg : Msg -> option RemoteSigner -> Header + error.
Variable boh_Number : BlockOrHeader Block -> Z.
Variable FSM :
  FsmState -> BlockOrHeader Block -> MsgCode ->
  (option (list (BlockOrHeader Block)) * Action * MsgCode * option error) * FsmState.

Local Abbreviation decode :=
  (decode_input Block RemoteSigner RecoverBlockFromMsg RecoverHeaderFromMsg).
Local Abbreviation handle :=
  (handleLBFT2Msg Block RemoteSigner FsmState RecoverBlockFromMsg RecoverHeaderFromMsg
                  boh_Number FSM).

Lemma emit_at_output {A} (out : list A) (i : nat) (f : A -> effect Block RemoteSigner) :
  (forall o, is_output_effect (f o)) ->
  Forall is_output_effect (fst (emit_at out i f)).
Proof.
  intros Hf. unfold emit_at. destruct (out !! i); simpl; auto.
Qed.

Lemma and_then_output (a b : list (effect Block RemoteSigner) * outcome unit) :
  Forall is_output_effect (fst a) -> Forall is_output_effect (fst b) ->
  Forall is_output_effect (fst (and_then a b)).
Proof.
  intros Ha Hb. unfold and_then. destruct (snd a); simpl; [exact Ha |].
  apply Forall_app. split; assumption.
Qed.

Lemma handle_output_effects (output : option (list (BlockOrHeader Block)))
      (action : Action) (msgCode : MsgCode) :
  Forall is_output_effect
         (fst (handle_output Block RemoteSigner output action msgCode)).
Proof.
  unfold handle_output.
  destruct output as [out |]; [| constructor].
  destruct action; try constructor; destruct msgCode; try constructor;
    repeat first [ apply and_then_output | apply emit_at_output; intros o; exact I ].
Qed.

(** C8 (as amended): a message for a number below the current one is
    dropped, the state machine is not called and keeps its state; for a
    number above the current one plus one (in [uint64] arithmetic) that
    came from a peer, a sync from that peer is started; and every
    message that is not below the current number, an impeach-preprepare
    from a peer apart, is handed to the state machine, its block being
    put into the unknown-ancestor cache exactly when the state machine
    answers with the unknown-ancestor error. *)
Theorem handleLBFT2Msg_heights (currentNumber : Z) (fsm : FsmState) (msg : Msg)
        (p : option RemoteSigner) (input : BlockOrHeader Block) (msgCode : MsgCode) :
  decode msg p = inl (input, msgCode) ->
  let res := handle currentNumber fsm msg p in
  let tr := fst (fst res) in
  (boh_Number input < currentNumber ->
   snd res = Ret None /\ snd (fst res) = fsm /\
   forall e, e ∈ tr -> exists peer, e = SyncFrom peer) /\
  (boh_Number input > wrap64 (currentNumber + 1) ->
   forall peer, p = Some peer -> SyncFrom peer ∈ tr) /\
  (currentNumber <= boh_Number input ->
   ~ (msgCode = ImpeachPreprepareMsgCode /\ p <> None) ->
   CallFSM input msgCode ∈ tr /\
   (AddUnknownAncestorBlock (block input) ∈ tr <->
    snd (fst (FSM fsm input msgCode)) = Some ErrUnknownAncestor)).
Proof.
  intros Hdec. unfold handleLBFT2Msg. rewrite Hdec.
  set (sync := match p with
               | Some peer =>
                   if boh_Number input >? wrap64 (currentNumber + 1)
                   then [SyncFrom peer] else []
               | None => []
               end).
  assert (Hsync : forall e, e ∈ sync -> exists peer, e = SyncFrom peer).
  { intros e. unfold sync. destruct p as [peer |]; [| intros H; inversion H].
    destruct (boh_Number input >? wrap64 (currentNumber + 1));
      [| intros H; inversion H].
    intros H. apply list_elem_of_singleton in H. eauto. }
  assert (Hpeer : boh_Number input > wrap64 (currentNumber + 1) ->
                  forall peer, p = Some peer -> SyncFrom peer ∈ sync).
  { intros Hgt peer ->. unfold sync.
    destruct (Z.gtb_spec (boh_Number input) (wrap64 (currentNumber + 1))); [| lia].
    apply list_elem_of_singleton. reflexivity. }
  destruct (Z.ltb_spec (boh_Number input) currentNumber) as [Hlt | Hge].
  { simpl. split; [auto |]. split; [exact Hpeer |]. intros; lia. }
  split; [intros; lia |].
  destruct (bool_decide (msgCode = ImpeachPreprepareMsgCode) && bool_decide (p <> None))
    eqn:Himp.
  { simpl. split; [exact Hpeer |]. intros _ Hno. exfalso. apply Hno.
    apply andb_prop in Himp as [H1 H2].
    apply bool_decide_eq_true in H1, H2. split; assumption. }
  destruct (FSM fsm input msgCode) as [[[[output action] msgCode'] err] fsm'].
  simpl snd. simpl fst.
  pose proof (handle_output_effects output action msgCode') as Hout.
  rewrite Forall_forall in Hout.
  assert (Hno_sync : AddUnknownAncestorBlock (block input) ∉ sync).
  { intros H. apply Hsync in H as [peer H]. discriminate. }
  assert (Hno_out :
    AddUnknownAncestorBlock (block input)
      ∉ fst (handle_output Block RemoteSigner output action msgCode')).
  { intros H. apply Hout in H. exact H. }
  assert (Hno_call :
    @AddUnknownAncestorBlock Block RemoteSigner (block input)
    <> CallFSM input msgCode)
    by discriminate.
  split.
  - intros Hgt peer Hp. specialize (Hpeer Hgt peer Hp).
    destruct err as [[] |]; simpl; rewrite ?elem_of_app; tauto.
  - intros _ _.
    destruct err as [[] |]; simpl;
      rewrite ?elem_of_app, ?list_elem_of_singleton;
      (split; [tauto |]); (split; [| try discriminate; tauto]);
      intuition congruence.
Qed.

End HandlerFacts.

(** * Examples *)

(** The snapshots of the examples are the ones [newSnapshot] builds. *)
Example newSnapshot_ex_snap3 :
  newSnapshot (ex_config 3) 0 77 [11; 12; 13] = Ret ex_snap3.
Proof. reflexivity. Qed.

Example newSnapshot_ex_snap_padded :
  newSnapshot (ex_config 4) 0 77 [11; 12] = Ret ex_snap_padded.
Proof. reflexivity. Qed.

(** Scenario 3 of the spec (quorum miss), with epoch length three: two
    committee signatures are not enough, three are. *)
Example verifySeal_two_of_three :
  verifySeal ex_Hash ex_rlpKeccak256 ex_Ecrecover ex_pubkey_address
             ex_DecodedExtra2 DporSnapshot ex_SignersOf ex_IsLeaderOf
             ex_snapshot ex_diffInTurn ex_diffNoTurn
             (ex_dpor ∅) ex_sealed2 []
  = Ret (Some ErrNotEnoughSigs, ex_dpor ex_cache_sealed2).
Proof. vm_compute. reflexivity. Qed.

Example verifySeal_three_of_three :
  fst <$> (match verifySeal ex_Hash ex_rlpKeccak256 ex_Ecrecover ex_pubkey_address
                            ex_DecodedExtra2 DporSnapshot ex_SignersOf ex_IsLeaderOf
                            ex_snapshot ex_diffInTurn ex_diffNoTurn
                            (ex_dpor ∅) ex_sealed3 [] with
           | Ret r => Some r
           | Panic => None
           end)
  = Some None.
Proof. vm_compute. reflexivity. Qed.

(** The count is over the cache: with the signatures of [12] and [13]
    cached for its hash, a header that carries only the leader's seal
    passes. *)
Example verifySeal_counts_cached_signatures :
  match verifySeal ex_Hash ex_rlpKeccak256 ex_Ecrecover ex_pubkey_address
                   ex_DecodedExtra2 DporSnapshot ex_SignersOf ex_IsLeaderOf
                   ex_snapshot ex_diffInTurn ex_diffNoTurn
                   (ex_dpor ex_cache_sealed0) ex_sealed0 [] with
  | Ret (e, dpor') =>
      e = None /\
      cached_count ex_Hash (signatures dpor') ex_sealed0 (ex_SignersOf ex_snap3 1) = 3
  | Panic => False
  end.
Proof. vm_compute. split; reflexivity. Qed.



(** C2, witness and failing input: the engine signs [ex_seven_a] and then
    [ex_seven_b], two headers of height seven with different hashes; both
    calls succeed and the map of signed blocks stays empty. *)
Lemma signHeader_forgets_witness :
  ex_Hash ex_seven_a <> ex_Hash ex_seven_b /\
  big_Uint64 (Number ex_seven_a) = big_Uint64 (Number ex_seven_b) /\
  signHeader ex_Hash ex_rlpKeccak256 ex_EncodeToExtra2 DporSnapshot ex_SignersOf
             ex_IsSignerOf ex_SignerRoundOf ex_snapshot
             (ex_dpor ex_cache_seven) ex_seven_a
    = Ret (None, ex_dpor ex_cache_seven, set_Extra2 ex_seven_a ex_allSigs) /\
  signHeader ex_Hash ex_rlpKeccak256 ex_EncodeToExtra2 DporSnapshot ex_SignersOf
             ex_IsSignerOf ex_SignerRoundOf ex_snapshot
             (ex_dpor ex_cache_seven) ex_seven_b
    = Ret (None, ex_dpor ex_cache_seven, set_Extra2 ex_seven_b ex_allSigs) /\
  signedBlocks (ex_dpor ex_cache_seven) = signedBlocks (ex_dpor ex_cache_seven) /\
  signHeader ex_Hash ex_rlpKeccak256 ex_EncodeToExtra2 DporSnapshot ex_SignersOf
             ex_IsSignerOf ex_SignerRoundOf ex_snapshot
             (ex_dpor ex_cache_seven) ex_seven_b
    = Ret (None, ex_dpor ex_cache_seven, set_Extra2 ex_seven_b ex_allSigs).
Proof.
  assert (Ha : signHeader ex_Hash ex_rlpKeccak256 ex_EncodeToExtra2 DporSnapshot
                          ex_SignersOf ex_IsSignerOf ex_SignerRoundOf ex_snapshot
                          (ex_dpor ex_cache_seven) ex_seven_a
               = Ret (None, ex_dpor ex_cache_seven, set_Extra2 ex_seven_a ex_allSigs))
    by (vm_compute; reflexivity).
  assert (Hb : signHeader ex_Hash ex_rlpKeccak256 ex_EncodeToExtra2 DporSnapshot
                          ex_SignersOf ex_IsSignerOf ex_SignerRoundOf ex_snapshot
                          (ex_dpor ex_cache_seven) ex_seven_b
               = Ret (None, ex_dpor ex_cache_seven, set_Extra2 ex_seven_b ex_allSigs))
    by (vm_compute; reflexivity).
  split; [vm_compute; discriminate |].
  split; [reflexivity |].
  split; [exact Ha |]. split; [exact Hb |].
  exact (signHeader_forgets ex_Hash ex_rlpKeccak256 ex_EncodeToExtra2 DporSnapshot
           ex_SignersOf ex_IsSignerOf ex_SignerRoundOf ex_snapshot
           _ _ _ _ _ _ _ _ _ Ha Hb).
Defined.

(** C3, counterexample: a header of number one whose parent hash is not
    the hash of the snapshot of number zero is applied all the same. *)
Lemma apply_unlinked_parent :
  [ex_h1] <> [] /\
  ~ linked ex_Hash (sHash ex_snap3) [ex_h1] /\
  apply ex_Hash ex_Elect ex_snap3 [ex_h1]
    = Ret (inl (mkSnapshot (ex_config 3) 1 (ex_Hash ex_h1) [11; 12; 13]
                           stubCandidates ∅)).
Proof.
  split; [discriminate |]. split.
  - intros [Hparent _]. vm_compute in Hparent. discriminate.
  - vm_compute. reflexivity.
Qed.

(** C4, witness: the seal of [ex_sealed3] replaced by a signature of
    [13], and its signature vector emptied. *)
Lemma sigHash_ignores_seal_and_sigs_witness :
  65 <= Z.of_nat (length (Extra ex_sealed3)) /\
  65 <= Z.of_nat (length (ex_sig "013")) /\
  take (Z.to_nat (Z.of_nat (length (ex_sig "013")) - 65)) (ex_sig "013") =
  take (Z.to_nat (Z.of_nat (length (Extra ex_sealed3)) - 65)) (Extra ex_sealed3) /\
  exists d,
    sigHash ex_rlpKeccak256 ex_sealed3 = Ret d /\
    sigHash ex_rlpKeccak256 (set_Extra (set_Extra2 ex_sealed3 []) (ex_sig "013")) = Ret d.
Proof.
  assert (H1 : 65 <= Z.of_nat (length (Extra ex_sealed3))) by (vm_compute; discriminate).
  assert (H2 : 65 <= Z.of_nat (length (ex_sig "013"))) by (vm_compute; discriminate).
  assert (H3 : take (Z.to_nat (Z.of_nat (length (ex_sig "013")) - 65)) (ex_sig "013") =
               take (Z.to_nat (Z.of_nat (length (Extra ex_sealed3)) - 65))
                    (Extra ex_sealed3)) by reflexivity.
  repeat (split; [assumption |]).
  exact (sigHash_ignores_seal_and_sigs ex_rlpKeccak256 ex_sealed3 (ex_sig "013") []
           H1 H2 H3).
Defined.



(** C6, counterexample: with epoch length four and two genesis signers
    the signer list is padded with the zero address, which sits at
    position three but is reported at its first position, two. *)
Lemma isLeader_padded_signers :
  0 < 4 /\
  Signers ex_snap_padded !! Z.to_nat ((4 - 1) mod Epoch (config ex_snap_padded))
    = Some zeroAddress /\
  isLeader ex_snap_padded zeroAddress 4 = Ret (false, None).
Proof. vm_compute. repeat split; congruence. Qed.

(** C6, witness: signer [12] at height five of [ex_snap3]. *)
Lemma isLeader_position_witness :
  NoDup (Signers ex_snap3) /\
  config_in_range (config ex_snap3) /\
  isLeader ex_snap3 12 0 = Ret (false, Some errGenesisBlockNumber) /\
  (0 < 5 ->
   exists (b : bool) (err : option error),
     isLeader ex_snap3 12 5 = Ret (b, err) /\
     (b = true <->
      Signers ex_snap3 !! Z.to_nat ((5 - 1) mod Epoch (config ex_snap3)) = Some 12)).
Proof.
  assert (Hnd : NoDup (Signers ex_snap3))
    by (apply (bool_decide_unpack _); vm_compute; exact I).
  assert (Hcfg : config_in_range (config ex_snap3))
    by (unfold config_in_range; simpl; lia).
  repeat (split; [assumption |]).
  exact (isLeader_position ex_snap3 12 5 Hnd Hcfg).
Defined.

(** C7, witness: the checkpoint header [ex_h4] on [ex_snap3]. *)
Lemma applyHeader_Signers_witness :
  Epoch (config ex_snap3) < 2 ^ 63 /\
  Signers (fst (applyHeader ex_Hash ex_Elect ex_snap3 ex_h4)) =
    if big_Uint64 (Number ex_h4) mod checkpointInterval =? 0
    then ex_Elect stubRpts (toInt64 (ex_Hash ex_h4 mod 2 ^ 64)) (Epoch (config ex_snap3))
    else Signers ex_snap3.
Proof.
  assert (HE : Epoch (config ex_snap3) < 2 ^ 63) by reflexivity.
  split; [exact HE |].
  exact (applyHeader_Signers ex_Hash ex_Elect ex_snap3 ex_h4 HE).
Defined.

(** C8, counterexample: with the current number five, a preprepare for
    number nine from peer [1] starts a sync, is handed to the state
    machine and, the ancestor being unknown, has its block put into the
    unknown-ancestor cache. *)
Lemma handleLBFT2Msg_buffers_block :
  9 > wrap64 (5 + 1) /\
  handleLBFT2Msg Z Z unit ex_RecoverBlockFromMsg ex_RecoverHeaderFromMsg
                 ex_boh_Number ex_FSM 5 tt (ex_msg PreprepareBlockMsg 9) (Some 1)
    = ([SyncFrom 1;
        CallFSM (mkBlockOrHeader (Some 9) None) PreprepareMsgCode;
        AddUnknownAncestorBlock (Some 9)],
       tt, Ret None).
Proof. vm_compute. split; reflexivity. Qed.

(** C8, witness: the same message. *)
Lemma handleLBFT2Msg_heights_witness :
  decode_input Z Z ex_RecoverBlockFromMsg ex_RecoverHeaderFromMsg
               (ex_msg PreprepareBlockMsg 9) (Some 1)
    = inl (mkBlockOrHeader (Some 9) None, PreprepareMsgCode) /\
  let input : BlockOrHeader Z := mkBlockOrHeader (Some 9) None in
  let res := handleLBFT2Msg Z Z unit ex_RecoverBlockFromMsg ex_RecoverHeaderFromMsg
                            ex_boh_Number ex_FSM 5 tt (ex_msg PreprepareBlockMsg 9)
                            (Some 1) in
  let tr := fst (fst res) in
  (ex_boh_Number input < 5 ->
   snd res = Ret None /\ snd (fst res) = tt /\
   forall e, e ∈ tr -> exists peer, e = SyncFrom peer) /\
  (ex_boh_Number input > wrap64 (5 + 1) ->
   forall peer, Some 1 = Some peer -> SyncFrom peer ∈ tr) /\
  (5 <= ex_boh_Number input ->
   ~ (PreprepareMsgCode = ImpeachPreprepareMsgCode /\ Some 1 <> None) ->
   CallFSM input PreprepareMsgCode ∈ tr /\
   (AddUnknownAncestorBlock (block input) ∈ tr <->
    snd (fst (ex_FSM tt input PreprepareMsgCode)) = Some ErrUnknownAncestor)).
Proof.
  assert (Hdec : decode_input Z Z ex_RecoverBlockFromMsg ex_RecoverHeaderFromMsg
                              (ex_msg PreprepareBlockMsg 9) (Some 1)
                 = inl (mkBlockOrHeader (Some 9) None, PreprepareMsgCode))
    by reflexivity.
  split; [exact Hdec |].
  exact (handleLBFT2Msg_heights Z Z unit ex_RecoverBlockFromMsg ex_RecoverHeaderFromMsg
           ex_boh_Number ex_FSM 5 tt (ex_msg PreprepareBlockMsg 9) (Some 1)
           (mkBlockOrHeader (Some 9) None) PreprepareMsgCode Hdec).
Defined.

(** C9, witness: a header without extra-data. *)
Lemma ecrecover_short_extra_witness :
  Z.of_nat (length (Extra ex_h1)) < 65 /\
  ecrecover ex_Hash ex_rlpKeccak256 ex_Ecrecover ex_pubkey_address ex_DecodedExtra2
            ex_h1 ∅ <> Panic /\
  sigHash ex_rlpKeccak256 ex_h1 = Panic /\
  ecrecover ex_Hash ex_rlpKeccak256 ex_Ecrecover ex_pubkey_address ex_DecodedExtra2
            ex_h1 ∅ = Ret ((zeroAddress, [], Some errMissingSignature), ∅).
Proof.
  assert (Hlen : Z.of_nat (length (Extra ex_h1)) < 65) by reflexivity.
  destruct (ecrecover_short_extra ex_Hash ex_rlpKeccak256 ex_Ecrecover
              ex_pubkey_address ex_DecodedExtra2 ex_h1 ∅) as [Hnp Hshort].
  destruct (Hshort Hlen) as [Hsig Hret].
  repeat split; assumption.
Defined.

(** * Further properties of the code *)

(** ** The snapshot *)




Lemma signerRound_from_first (l : list Z) (a r r' : Z) :
  signerRound_from r l a = (r', None) ->
  a ∉ take (Z.to_nat (r' - r)) l.
Proof.
  revert r. induction l as [| x l IH]; intros r; simpl; [discriminate |].
  destruct (decide (x = a)) as [-> | Hne].
  - intros [= <-]. rewrite Z.sub_diag. simpl. apply not_elem_of_nil.
  - intros H. pose proof (signerRound_from_found _ _ _ _ H) as [Hle _].
    replace (Z.to_nat (r' - r)) with (S (Z.to_nat (r' - (r + 1)))) by lia.
    simpl. apply not_elem_of_cons. split; [congruence | eauto].
Qed.

Lemma signerRound_from_error (l : list Z) (a r r' : Z) (e : error) :
  signerRound_from r l a = (r', Some e) ->
  r' = -1 /\ e = errSignerNotInCommittee.
Proof.
  revert r. induction l as [| x l IH]; intros r; simpl.
  - intros [= <- <-]. split; reflexivity.
  - destruct (decide (x = a)); [discriminate | eauto].
Qed.

(** X3: [signerRound] answers with the first position of the address in the
    signer list, and with [-1] and the not-in-committee error exactly
    when the address is not in the list. *)
Theorem signerRound_first_position (s : DporSnapshot) (a : Z) :
  match signerRound s a with
  | (r, None) =>
      0 <= r /\ Signers s !! Z.to_nat r = Some a /\ a ∉ take (Z.to_nat r) (Signers s)
  | (r, Some e) =>
      r = -1 /\ e = errSignerNotInCommittee /\ a ∉ Signers s
  end.
Proof.
  unfold signerRound, signers.
  destruct (signerRound_from 0 (Signers s) a) as [r [e |]] eqn:Hr.
  - destruct (signerRound_from_error _ _ _ _ _ Hr) as [-> ->].
    repeat split. eapply signerRound_from_missing. exact Hr.
  - pose proof (signerRound_from_found _ _ _ _ Hr) as [Hle Hat].
    pose proof (signerRound_from_first _ _ _ _ Hr) as Hfirst.
    rewrite Z.sub_0_r in Hat, Hfirst. repeat split; assumption.
Qed.

(** [isSigner] is membership in the signer list. *)
Lemma isSigner_elem_of (s : DporSnapshot) (a : Z) :
  isSigner s a = true <-> a ∈ Signers s.
Proof.
  unfold isSigner, signerRound, signers.
  destruct (signerRound_from 0 (Signers s) a) as [r [e |]] eqn:Hr; simpl.
  - split; [discriminate |]. intros Hin. exfalso.
    eapply signerRound_from_missing; eauto.
  - split; [| reflexivity]. intros _.
    apply signerRound_from_found in Hr as [_ Hat].
    eapply list_elem_of_lookup_2. exact Hat.
Qed.

(** X4: at any height at most one address is leader: two addresses for which
    [isLeader] answers [true] at the same number are the same address. *)
Theorem isLeader_unique (s : DporSnapshot) (a b number : Z) (ea eb : option error) :
  isLeader s a number = Ret (true, ea) ->
  isLeader s b number = Ret (true, eb) ->
  a = b.
Proof.
  unfold isLeader. destruct (number =? 0); [discriminate |].
  destruct (signerRound s a) as [ra [e |]] eqn:Ha; [discriminate |].
  destruct (signerRound s b) as [rb [e |]] eqn:Hb; [discriminate |].
  destruct (Epoch (config s) =? 0); [discriminate |].
  intros [= Hra _] [= Hrb _].
  apply Z.eqb_eq in Hra, Hrb.
  apply signerRound_from_found in Ha as [_ Hat], Hb as [_ Hbt].
  rewrite Hra in Hat. rewrite Hrb in Hbt. congruence.
Qed.

(** X5: [inturn] turns every error of [isLeader] into [false]: it answers
    [false] for the genesis number and for an address outside the signer
    list, and when it answers [true] the address is the signer at
    position [(number - 1) mod Epoch]. *)
Theorem inturn_answers (s : DporSnapshot) (a number : Z) :
  inturn s 0 a = Ret false /\
  (a ∉ Signers s -> inturn s number a = Ret false) /\
  (config_in_range (config s) ->
   inturn s number a = Ret true ->
   number <> 0 /\
   Signers s !! Z.to_nat ((number - 1) mod Epoch (config s)) = Some a).
Proof.
  split; [reflexivity |]. split.
  - intros Hout. unfold inturn, isLeader.
    destruct (number =? 0); [reflexivity |].
    destruct (signerRound s a) as [r [e |]] eqn:Hr; [reflexivity |].
    exfalso. apply Hout. apply signerRound_from_found in Hr as [_ Hat].
    eapply list_elem_of_lookup_2. exact Hat.
  - intros [Hpos Hlt]. unfold inturn, isLeader.
    destruct (Z.eqb_spec number 0) as [| Hn]; [discriminate |].
    destruct (signerRound s a) as [r [e |]] eqn:Hr; [discriminate |].
    destruct (Z.eqb_spec (Epoch (config s)) 0); [lia |]. simpl.
    intros [= Hr']. apply Z.eqb_eq in Hr'.
    assert (Hp : 0 <= (number - 1) mod Epoch (config s) < Epoch (config s))
      by (apply Z.mod_pos_bound; lia).
    rewrite toInt64_small in Hr' by lia.
    apply signerRound_from_found in Hr as [_ Hat].
    rewrite Z.sub_0_r, Hr' in Hat. split; [exact Hn | exact Hat].
Qed.

Section ApplyResult.

Variable header_Hash : Header -> Z.
Variable Elect : list RPT -> Z -> Z -> list Z.

Local Abbreviation apply_loop := (apply_loop header_Hash Elect).
Local Abbreviation apply := (apply header_Hash Elect).

(** X6: a snapshot returned by [apply] for a run of headers carries the
    number and hash of the last header and the hard-wired candidate list,
    and keeps the configuration and the recent signers of the snapshot it
    was derived from. *)
Theorem apply_result_fields (s s' : DporSnapshot) (hs : list Header) (hl : Header) :
  apply s hs = Ret (inl s') ->
  last hs = Some hl ->
  sNumber s' = big_Uint64 (Number hl) /\
  sHash s' = header_Hash hl /\
  config s' = config s /\
  Candidates s' = stubCandidates /\
  Recents s' = Recents s.
Proof.
  intros Happ Hlast.
  assert (Hne : hs <> []) by (intros ->; discriminate).
  destruct (apply_inl_inv header_Hash Elect _ _ _ Hne Happ) as (Hf & c & Hc & Hloop).
  destruct (copy_fields _ _ Hc) as (_ & Hcfg & _ & _ & _ & _ & Hrc).
  destruct (apply_loop_last _ _ _ _ _ _ Hloop Hlast) as [Hn Hh].
  repeat split; try assumption.
  - rewrite (apply_loop_config _ _ _ _ _ Hloop). exact Hcfg.
  - eapply apply_loop_Candidates; eassumption.
  - rewrite (apply_loop_Recents _ _ _ _ _ Hloop). exact Hrc.
Qed.

(** X7: the signers of a snapshot returned by [apply] for a run of headers
    are decided by the last checkpoint header of the run alone: they are
    the election seeded by that header; a run without a checkpoint
    leaves the signers of the copy, the old list cut or padded to the
    epoch length. *)
Theorem apply_Signers_last_checkpoint (s s' : DporSnapshot) (hs : list Header) :
  hs <> [] ->
  apply s hs = Ret (inl s') ->
  Signers s' =
    match last_checkpoint None hs with
    | Some h => Elect stubRpts (toInt64 (header_Hash h mod 2 ^ 64))
                      (toInt64 (Epoch (config s)))
    | None => copy_slice (make_slice zeroAddress (Epoch (config s))) (Signers s)
    end.
Proof.
  intros Hne Happ.
  destruct (apply_inl_inv header_Hash Elect _ _ _ Hne Happ) as (Hf & c & Hc & Hloop).
  destruct (copy_fields _ _ Hc) as (_ & Hcfg & _ & _ & Hsg & _).
  rewrite (apply_loop_Signers _ _ _ _ _ Hloop), Hcfg, Hsg. reflexivity.
Qed.

End ApplyResult.

(** ** The quorum test and the signature cache *)

(** X8: within the range of its operands [percentagePBFT n N] holds exactly
    from [n = 2N/3 + 1] on (integer division). *)
Theorem percentagePBFT_threshold (n N : Z) :
  0 <= n -> 3 * n < 2 ^ 64 -> 0 <= N < 2 ^ 63 ->
  percentagePBFT n N = true <-> 2 * N / 3 + 1 <= n.
Proof.
  intros Hn Hn3 HN. rewrite (percentagePBFT_exact n N Hn Hn3 HN).
  pose proof (Z.div_mod (2 * N) 3 ltac:(lia)) as Hdm.
  pose proof (Z.mod_pos_bound (2 * N) 3 ltac:(lia)) as Hmod.
  lia.
Qed.

Lemma wrap64_wrap64_succ (a : Z) : wrap64 (wrap64 a + 1) = wrap64 (a + 1).
Proof.
  unfold wrap64. rewrite Zplus_mod_idemp_l. reflexivity.
Qed.

Lemma count_sigs_wrap (s : gmap Z (list byte)) (committee : list Z) (acc : Z) :
  wrap64 (count_sigs s committee acc) = wrap64 (acc + signed_entries s committee).
Proof.
  unfold signed_entries.
  revert acc. induction committee as [| a committee IH]; intros acc.
  - simpl. f_equal. lia.
  - simpl count_sigs. rewrite filter_cons.
    destruct (s !! a) as [sig |] eqn:Ha.
    + rewrite decide_True by eauto. rewrite IH. simpl length.
      unfold wrap64. rewrite Zplus_mod_idemp_l. f_equal. lia.
    + rewrite decide_False by (apply is_Some_None). apply IH.
Qed.

Lemma count_sigs_range (s : gmap Z (list byte)) (committee : list Z) (acc : Z) :
  0 <= acc < 2 ^ 64 -> 0 <= count_sigs s committee acc < 2 ^ 64.
Proof.
  revert acc. induction committee as [| a committee IH]; intros acc Hacc.
  - exact Hacc.
  - simpl. destruct (s !! a); [| apply IH; exact Hacc].
    apply IH. unfold wrap64. apply Z.mod_pos_bound. lia.
Qed.

Lemma count_sigs_zero (s : gmap Z (list byte)) (committee : list Z) :
  count_sigs s committee 0 = wrap64 (signed_entries s committee).
Proof.
  rewrite <- (wrap64_small (count_sigs s committee 0))
    by (apply count_sigs_range; lia).
  rewrite count_sigs_wrap. reflexivity.
Qed.

Lemma signed_entries_Permutation (s : gmap Z (list byte)) (l l' : list Z) :
  l ≡ₚ l' -> signed_entries s l = signed_entries s l'.
Proof.
  intros Hp. unfold signed_entries. f_equal.
  apply Permutation_length. apply filter_Permutation. exact Hp.
Qed.

Lemma signed_entries_mono (s s' : gmap Z (list byte)) (l : list Z) :
  (forall a, is_Some (s !! a) -> is_Some (s' !! a)) ->
  signed_entries s l <= signed_entries s' l.
Proof.
  intros Hsub. unfold signed_entries. induction l as [| a l IH]; [reflexivity |].
  rewrite !filter_cons.
  destruct (decide (is_Some (s !! a))) as [Ha | Ha].
  - rewrite decide_True by auto. simpl. lia.
  - destruct (decide (is_Some (s' !! a))); simpl; lia.
Qed.

Section AcceptSigsFacts.

Variable header_Hash : Header -> Z.

(** X9: [acceptSigs] does not depend on the order of the committee. *)
Theorem acceptSigs_Permutation (h : Header) (cache : gmap Z (gmap Z (list byte)))
        (committee committee' : list Z) (epochL : Z) :
  committee ≡ₚ committee' ->
  acceptSigs header_Hash h cache committee epochL =
  acceptSigs header_Hash h cache committee' epochL.
Proof.
  intros Hp. unfold acceptSigs.
  destruct (cache !! header_Hash h) as [s |]; [| reflexivity].
  rewrite !count_sigs_zero, (signed_entries_Permutation s _ _ Hp). reflexivity.
Qed.

(** X10: signatures are never held against a header: when [acceptSigs]
    accepts with one cache entry it accepts with every entry that holds a
    signature for at least the same addresses (epoch length below [2^63],
    committee short enough for the [uint] products). *)
Theorem acceptSigs_monotone (h : Header) (cache cache' : gmap Z (gmap Z (list byte)))
        (s s' : gmap Z (list byte)) (committee : list Z) (epochL : Z) :
  cache !! header_Hash h = Some s ->
  cache' !! header_Hash h = Some s' ->
  (forall a, is_Some (s !! a) -> is_Some (s' !! a)) ->
  0 <= epochL < 2 ^ 63 ->
  3 * Z.of_nat (length committee) < 2 ^ 64 ->
  acceptSigs header_Hash h cache committee epochL = (true, None) ->
  acceptSigs header_Hash h cache' committee epochL = (true, None).
Proof.
  intros Hs Hs' Hsub HE Hlen. unfold acceptSigs. rewrite Hs, Hs'.
  pose proof (signed_entries_bounds s committee) as Hb.
  pose proof (signed_entries_bounds s' committee) as Hb'.
  pose proof (signed_entries_mono s s' committee Hsub) as Hmono.
  rewrite !count_sigs_signed_entries by lia. rewrite !Z.add_0_l.
  intros [= Hacc]. f_equal.
  apply percentagePBFT_exact in Hacc; [| lia ..].
  apply percentagePBFT_exact; lia.
Qed.

End AcceptSigsFacts.

(** ** What [ecrecover] does to the signature cache *)

Lemma put_all_lookup (ops : list (Z * list byte)) (m : gmap Z (list byte)) (k : Z) :
  put_all ops m !! k =
    match last_put k ops with
    | Some v => Some v
    | None => m !! k
    end.
Proof.
  revert m. induction ops as [| op ops IH]; intros m; [reflexivity |].
  unfold put_all in *. simpl. rewrite IH.
  destruct (last_put k ops); [reflexivity |].
  destruct (decide (fst op = k)) as [<- | Hne].
  - apply lookup_insert_eq.
  - apply lookup_insert_ne. exact Hne.
Qed.

Lemma put_all_idempotent (ops : list (Z * list byte)) (m : gmap Z (list byte)) :
  put_all ops (put_all ops m) = put_all ops m.
Proof.
  apply map_eq. intros k. rewrite !put_all_lookup.
  destruct (last_put k ops); reflexivity.
Qed.

Lemma put_all_keeps (ops : list (Z * list byte)) (m : gmap Z (list byte)) (k : Z) :
  is_Some (m !! k) -> is_Some (put_all ops m !! k).
Proof.
  intros Hk. rewrite put_all_lookup. destruct (last_put k ops); eauto.
Qed.

Lemma last_put_has (ops : list (Z * list byte)) (k : Z) :
  k ∈ ops.*1 -> is_Some (last_put k ops).
Proof.
  induction ops as [| op ops IH]; intros Hk; [inversion Hk |].
  simpl. rewrite fmap_cons in Hk. apply elem_of_cons in Hk as [-> | Hin].
  - destruct (last_put (fst op) ops); [eauto |].
    rewrite decide_True by reflexivity. eauto.
  - destruct (IH Hin) as [v ->]. eauto.
Qed.

Lemma last_put_not_put (ops : list (Z * list byte)) (k : Z) :
  k ∉ ops.*1 -> last_put k ops = None.
Proof.
  induction ops as [| op ops IH]; intros Hk; [reflexivity |].
  rewrite fmap_cons in Hk. apply not_elem_of_cons in Hk as [Hne Hk].
  simpl. rewrite (IH Hk). rewrite decide_False by congruence. reflexivity.
Qed.

Lemma put_all_has (ops : list (Z * list byte)) (m : gmap Z (list byte)) (k : Z) :
  k ∈ ops.*1 -> is_Some (put_all ops m !! k).
Proof.
  intros Hk. rewrite put_all_lookup.
  destruct (last_put_has ops k Hk) as [v ->]. eauto.
Qed.

Lemma cache_puts_insert (hash : Z) (ops : list (Z * list byte))
      (c : gmap Z (gmap Z (list byte))) (m : gmap Z (list byte)) :
  c !! hash = Some m ->
  cache_puts hash ops c = <[hash := put_all ops m]> c.
Proof.
  intros Hm. unfold cache_puts. rewrite Hm. simpl.
  destruct ops; [| reflexivity]. simpl. symmetry. apply insert_id. exact Hm.
Qed.

Lemma cache_puts_idempotent (hash : Z) (ops : list (Z * list byte))
      (c : gmap Z (gmap Z (list byte))) :
  cache_puts hash ops (cache_puts hash ops c) = cache_puts hash ops c.
Proof.
  destruct ops as [| op ops]; [reflexivity |].
  unfold cache_puts at 2.
  rewrite (cache_puts_insert hash _ _ (put_all (op :: ops) (default ∅ (c !! hash))))
    by apply lookup_insert_eq.
  rewrite put_all_idempotent. apply insert_insert_eq.
Qed.

Section CacheFacts.

Variable header_Hash : Header -> Z.
Variable rlpKeccak256 : list rlp_item -> Z.
Variable crypto_Ecrecover : Z -> list byte -> list byte + error.
Variable pubkey_address : list byte -> Z.
Variable DecodedExtra2 : Header -> list byte + error.

Local Abbreviation recover :=
  (recover_loop rlpKeccak256 crypto_Ecrecover pubkey_address).
Local Abbreviation recover_all :=
  (ecrecover header_Hash rlpKeccak256 crypto_Ecrecover pubkey_address DecodedExtra2).
Local Abbreviation slots := (slot_sigs crypto_Ecrecover pubkey_address).

Lemma recover_loop_shape (todo : nat) (i : Z) (h : Header) (data : list byte)
      (hash d : Z) (acc : list Z) (cache : gmap Z (gmap Z (list byte)))
      (m : gmap Z (list byte)) :
  sigHash rlpKeccak256 h = Ret d ->
  cache !! hash = Some m ->
  recover todo i h data hash acc cache =
    Ret (acc ++ (fst (slots todo i d data)).*1,
         snd (slots todo i d data),
         <[hash := put_all (fst (slots todo i d data)) m]> cache).
Proof.
  intros Hd. revert i acc cache m.
  induction todo as [| todo IH]; intros i acc cache m Hm.
  - simpl. rewrite app_nil_r, insert_id by exact Hm. reflexivity.
  - simpl.
    destruct (bool_decide _); simpl negb; cbv iota; [apply IH; exact Hm |].
    rewrite Hd. simpl obind.
    destruct (crypto_Ecrecover d _) as [pk | e].
    + unfold cache_put_sig. rewrite Hm. simpl obind.
      rewrite (IH _ _ _ (<[pubkey_address pk := _]> m)) by apply lookup_insert_eq.
      simpl. rewrite <- app_assoc, insert_insert_eq. reflexivity.
    + simpl. rewrite app_nil_r, insert_id by exact Hm. reflexivity.
Qed.

(** The answer of [ecrecover] and the assignments it makes to the cache
    entry of the header are fixed by the header. *)
Lemma ecrecover_shape (h : Header) :
  exists (r : Z * list Z * option error) (ops : list (Z * list byte)),
    (forall c, recover_all h c = Ret (r, cache_puts (header_Hash h) ops c)) /\
    (forall leader sg,
        r = (leader, sg, None) ->
        exists sig L, ops = (leader, sig) :: L /\ sg = L.*1).
Proof.
  unfold ecrecover.
  destruct (Z.ltb_spec (Z.of_nat (length (Extra h))) extraSeal) as [| Hlen].
  { exists (zeroAddress, [], Some errMissingSignature), [].
    split; [reflexivity | intros ? ? [=]]. }
  unfold extraSeal in Hlen.
  destruct (DecodedExtra2 h) as [data | e].
  2: { exists (zeroAddress, [], Some e), []. split; [reflexivity | intros ? ? [=]]. }
  destruct (sigHash_long rlpKeccak256 h Hlen) as [d Hd]. rewrite Hd. simpl obind.
  destruct (crypto_Ecrecover d _) as [pk | e] eqn:Hpk.
  2: { exists (zeroAddress, [], Some e), []. split; [reflexivity | intros ? ? [=]]. }
  set (leader := pubkey_address pk).
  set (leaderSig := drop _ (Extra h)).
  assert (Hc1 : forall c : gmap Z (gmap Z (list byte)),
    match c !! header_Hash h with
    | Some sigs => <[header_Hash h := <[leader := leaderSig]> sigs]> c
    | None => <[header_Hash h := {[leader := leaderSig]}]> c
    end = <[header_Hash h := <[leader := leaderSig]> (default ∅ (c !! header_Hash h))]> c).
  { intros c. destruct (c !! header_Hash h); simpl; [reflexivity |].
    rewrite insert_empty. reflexivity. }
  destruct (negb _).
  { exists (leader, [], Some errInvalidSigBytes), [(leader, leaderSig)].
    split; [| intros ? ? [=]]. intros c. rewrite Hc1. reflexivity. }
  set (todo := Z.to_nat _).
  exists (match snd (slots todo 0 d data) with
          | Some e => (zeroAddress, (fst (slots todo 0 d data)).*1, Some e)
          | None => (leader, (fst (slots todo 0 d data)).*1, None)
          end),
         ((leader, leaderSig) :: fst (slots todo 0 d data)).
  split.
  - intros c. rewrite Hc1.
    rewrite (recover_loop_shape todo 0 h data (header_Hash h) d [] _ _ Hd
               (lookup_insert_eq _ _ _)).
    simpl obind. rewrite insert_insert_eq.
    unfold cache_puts. unfold put_all at 2. simpl foldl.
    destruct (snd (slots todo 0 d data)); reflexivity.
  - intros leader' sg Hr. exists leaderSig, (fst (slots todo 0 d data)).
    destruct (snd (slots todo 0 d data)); [discriminate |].
    injection Hr as <- <-. split; reflexivity.
Qed.

(** X11: what [ecrecover] returns for a header does not depend on what the
    cache holds. *)
Theorem ecrecover_answer_ignores_cache (h : Header)
        (c c' d d' : gmap Z (gmap Z (list byte)))
        (r r' : Z * list Z * option error) :
  recover_all h c = Ret (r, c') ->
  recover_all h d = Ret (r', d') ->
  r = r'.
Proof.
  destruct (ecrecover_shape h) as (r0 & ops & Hall & _).
  rewrite !Hall. intros [= <- _] [= <- _]. reflexivity.
Qed.

(** X12: [ecrecover] takes no signature out of the cache entry of the
    header: every address that had a signature under the header's hash
    still has one afterwards, and when [ecrecover] returns without error
    every address other than the leader and the signers it returned has
    the signature it had. *)
Theorem ecrecover_keeps_signatures (h : Header) (c c' : gmap Z (gmap Z (list byte)))
        (r : Z * list Z * option error) (m : gmap Z (list byte)) :
  recover_all h c = Ret (r, c') ->
  c !! header_Hash h = Some m ->
  exists m',
    c' !! header_Hash h = Some m' /\
    (forall a, is_Some (m !! a) -> is_Some (m' !! a)) /\
    (forall leader sg,
        r = (leader, sg, None) ->
        forall a, a <> leader -> a ∉ sg -> m' !! a = m !! a).
Proof.
  destruct (ecrecover_shape h) as (r0 & ops & Hall & Hok).
  rewrite Hall. intros [= <- <-] Hm.
  rewrite (cache_puts_insert _ _ _ _ Hm).
  exists (put_all ops m). split; [apply lookup_insert_eq |]. split.
  - intros a Ha. apply put_all_keeps. exact Ha.
  - intros leader sg Hr a Hleader Hsg.
    destruct (Hok leader sg Hr) as (sig & L & -> & ->).
    rewrite put_all_lookup, last_put_not_put; [reflexivity |].
    rewrite fmap_cons. apply not_elem_of_cons. split; assumption.
Qed.

(** X13: running [ecrecover] again on the cache it left behind gives the same
    answer and leaves the cache as it is. *)
Theorem ecrecover_idempotent (h : Header) (c c' : gmap Z (gmap Z (list byte)))
        (r : Z * list Z * option error) :
  recover_all h c = Ret (r, c') ->
  recover_all h c' = Ret (r, c').
Proof.
  destruct (ecrecover_shape h) as (r0 & ops & Hall & _).
  rewrite !Hall. intros [= <- <-]. rewrite cache_puts_idempotent. reflexivity.
Qed.

(** X14: after [ecrecover] has returned without error, the cache entry of the
    header holds a signature for the leader and for every signer it
    returned. *)
Theorem ecrecover_caches_all (h : Header) (c c' : gmap Z (gmap Z (list byte)))
        (leader : Z) (sg : list Z) :
  recover_all h c = Ret ((leader, sg, None), c') ->
  exists m',
    c' !! header_Hash h = Some m' /\
    is_Some (m' !! leader) /\
    forall a, a ∈ sg -> is_Some (m' !! a).
Proof.
  destruct (ecrecover_shape h) as (r0 & ops & Hall & Hok).
  rewrite Hall. intros [= -> <-].
  destruct (Hok leader sg eq_refl) as (sig & L & -> & ->).
  unfold cache_puts. eexists. split; [apply lookup_insert_eq |]. split.
  - apply put_all_has. rewrite fmap_cons. apply elem_of_cons. left. reflexivity.
  - intros a Ha. apply put_all_has. rewrite fmap_cons. apply elem_of_cons.
    right. exact Ha.
Qed.

End CacheFacts.

(** ** Header verification *)

Section VerifyFacts.

Variable header_Hash : Header -> Z.
Variable rlpKeccak256 : list rlp_item -> Z.
Variable crypto_Ecrecover : Z -> list byte -> list byte + error.
Variable pubkey_address : list byte -> Z.
Variable DecodedExtra2 : Header -> list byte + error.
Variable Snap : Type.
Variable SignersOf : Snap -> Z -> list Z.
Variable IsLeaderOf : Snap -> Z -> Z -> bool * option error.
Variable snapshot : Z -> Z -> list Header -> Snap + error.
Variable diffInTurn diffNoTurn : Z.
Variable address_bytes : Z -> list byte.
Variable GetHeader : Z -> Z -> option Header.
Variable now : Z.

Local Abbreviation recover_all :=
  (ecrecover header_Hash rlpKeccak256 crypto_Ecrecover pubkey_address DecodedExtra2).
Local Abbreviation verify_seal :=
  (verifySeal header_Hash rlpKeccak256 crypto_Ecrecover pubkey_address DecodedExtra2
              Snap SignersOf IsLeaderOf snapshot diffInTurn diffNoTurn).
Local Abbreviation verify_cascading :=
  (verifyCascadingFields header_Hash rlpKeccak256 crypto_Ecrecover pubkey_address
                         DecodedExtra2 Snap SignersOf IsLeaderOf snapshot
                         diffInTurn diffNoTurn address_bytes GetHeader).
Local Abbreviation verify_header :=
  (verifyHeader header_Hash rlpKeccak256 crypto_Ecrecover pubkey_address
                DecodedExtra2 Snap SignersOf IsLeaderOf snapshot
                diffInTurn diffNoTurn address_bytes GetHeader now).
Local Abbreviation lay_out := (fill_signers address_bytes).

(** What a pass of [verifySeal] in normal mode went through. *)
Lemma verifySeal_pass_inv (dpor dpor' : Dpor) (h : Header) (parents : list Header) :
  fake dpor = NormalMode ->
  verify_seal dpor h parents = Ret (None, dpor') ->
  big_Uint64 (Number h) <> 0 /\
  exists leader sg cache snap,
    recover_all h (signatures dpor) = Ret ((leader, sg, None), cache) /\
    snapshot (wrap64 (big_Uint64 (Number h) - 1)) (ParentHash h) parents = inl snap /\
    IsLeaderOf snap leader (big_Uint64 (Number h)) = (true, None) /\
    Difficulty h = diffInTurn /\
    acceptSigs header_Hash h cache (SignersOf snap (big_Uint64 (Number h)))
               (Epoch (dpor_config dpor)) = (true, None) /\
    dpor' = set_signatures dpor cache.
Proof.
  intros Hmode. unfold verifySeal.
  destruct (Z.eqb_spec (big_Uint64 (Number h)) 0) as [| Hnum]; [discriminate |].
  rewrite Hmode. simpl orb. cbv iota.
  destruct (recover_all h (signatures dpor)) as [| [[[leader sg] err] cache]];
    [discriminate |].
  simpl obind. destruct err as [e |]; [discriminate |].
  destruct (snapshot _ _ _) as [snap | e]; [| discriminate].
  destruct (IsLeaderOf snap leader (big_Uint64 (Number h))) as [ok err] eqn:Hleader.
  simpl fst.
  destruct (ok && negb (Difficulty h =? diffInTurn)) eqn:Hturn; [discriminate |].
  destruct (negb ok && negb (Difficulty h =? diffNoTurn)); [discriminate |].
  destruct err as [e |]; [discriminate |].
  destruct ok; simpl negb; cbv iota; [| discriminate].
  simpl signatures. simpl dpor_config.
  destruct (acceptSigs header_Hash h cache _ _) as [accept err] eqn:Hacc.
  destruct err as [e |]; [discriminate |].
  destruct accept; simpl negb; cbv iota; [| discriminate].
  intros [= <-]. split; [exact Hnum |].
  exists leader, sg, cache, snap.
  simpl in Hturn. apply negb_false_iff, Z.eqb_eq in Hturn.
  repeat split; solve [reflexivity | assumption].
Qed.

(** In the two fake modes [verifySeal] looks at the number alone: it
    refuses the genesis number and the number set to fail, passes every
    other header, and leaves the engine as it is. *)
Lemma verifySeal_fake_modes (dpor : Dpor) (h : Header) (parents : list Header) :
  fake dpor <> NormalMode ->
  verify_seal dpor h parents =
    Ret (if big_Uint64 (Number h) =? 0 then Some errUnknownBlock
         else if fakeFail dpor =? big_Uint64 (Number h) then Some errFakerFail
         else None,
         dpor).
Proof.
  intros Hmode. unfold verifySeal.
  destruct (big_Uint64 (Number h) =? 0); [reflexivity |].
  destruct (fake dpor); [contradiction | |]; simpl;
    destruct (fakeFail dpor =? big_Uint64 (Number h)); reflexivity.
Qed.


(** What a pass of [verifyHeader] outside the fake mode went through
    before the cascading checks. *)
Lemma verifyHeader_pass_inv (dpor dpor' : Dpor) (h : Header) (parents : list Header) :
  fake dpor <> FakeMode ->
  verify_header dpor h parents = Ret (None, dpor') ->
  Time h <= now /\
  extraVanity + extraSeal <= Z.of_nat (length (Extra h)) /\
  (Z.of_nat (length (Extra h)) - extraVanity - extraSeal) mod AddressLength = 0 /\
  MixHash h = 0 /\
  (0 < big_Uint64 (Number h) -> Difficulty h = diffInTurn \/ Difficulty h = diffNoTurn) /\
  verify_cascading dpor h parents = Ret (None, dpor').
Proof.
  intros Hmode. unfold verifyHeader.
  destruct (Z.gtb_spec (Time h) now) as [| Htime]; [discriminate |].
  rewrite bool_decide_eq_false_2 by exact Hmode.
  destruct (Z.ltb_spec (Z.of_nat (length (Extra h))) extraVanity); [discriminate |].
  destruct (Z.ltb_spec (Z.of_nat (length (Extra h))) (extraVanity + extraSeal))
    as [| Hlen]; [discriminate |].
  destruct (Z.eqb_spec
              ((Z.of_nat (length (Extra h)) - extraVanity - extraSeal)
                 mod AddressLength) 0) as [Hmod |]; [| discriminate].
  simpl negb. cbv iota.
  destruct (Z.eqb_spec (MixHash h) 0) as [Hmix |]; [| discriminate].
  simpl negb. cbv iota.
  destruct ((big_Uint64 (Number h) >? 0) && negb (Difficulty h =? diffInTurn)
            && negb (Difficulty h =? diffNoTurn)) eqn:Hdiff; [discriminate |].
  intros Hcasc. repeat split; try assumption.
  intros Hnum.
  destruct (Z.gtb_spec (big_Uint64 (Number h)) 0); [| lia].
  destruct (Z.eqb_spec (Difficulty h) diffInTurn); [left; assumption |].
  destruct (Z.eqb_spec (Difficulty h) diffNoTurn); [right; assumption |].
  discriminate.
Qed.

(** X16: a header that [verifyHeader] passes outside the fake mode is not
    from the future, has room for vanity and seal in its extra-data with
    a whole number of addresses in between, has a zero mix digest and,
    above the genesis number, one of the two difficulties. *)
Theorem verifyHeader_pass_structure (dpor dpor' : Dpor) (h : Header)
        (parents : list Header) :
  fake dpor <> FakeMode ->
  verify_header dpor h parents = Ret (None, dpor') ->
  Time h <= now /\
  extraVanity + extraSeal <= Z.of_nat (length (Extra h)) /\
  (Z.of_nat (length (Extra h)) - extraVanity - extraSeal) mod AddressLength = 0 /\
  MixHash h = 0 /\
  (0 < big_Uint64 (Number h) -> Difficulty h = diffInTurn \/ Difficulty h = diffNoTurn).
Proof.
  intros Hmode Hpass.
  destruct (verifyHeader_pass_inv _ _ _ _ Hmode Hpass) as (? & ? & ? & ? & ? & _).
  auto.
Qed.

(** X17: the genesis header is the dead end of the cascading checks: a header
    of number zero that is not from the future and is well-formed on its
    own passes [verifyHeader] whatever the chain and the parents are. *)
Theorem verifyHeader_genesis (dpor : Dpor) (h : Header) (parents : list Header) :
  big_Uint64 (Number h) = 0 ->
  Time h <= now ->
  extraVanity + extraSeal <= Z.of_nat (length (Extra h)) ->
  (Z.of_nat (length (Extra h)) - extraVanity - extraSeal) mod AddressLength = 0 ->
  MixHash h = 0 ->
  verify_header dpor h parents = Ret (None, dpor).
Proof.
  intros Hnum Htime Hlen Hmod Hmix. unfold verifyHeader, verifyCascadingFields.
  destruct (Z.gtb_spec (Time h) now); [lia |].
  destruct (bool_decide (fake dpor = FakeMode)); [reflexivity |].
  assert (Hv : 0 <= extraSeal) by (unfold extraSeal; lia).
  destruct (Z.ltb_spec (Z.of_nat (length (Extra h))) extraVanity); [lia |].
  destruct (Z.ltb_spec (Z.of_nat (length (Extra h))) (extraVanity + extraSeal));
    [lia |].
  rewrite Hmod, Hmix, Hnum. reflexivity.
Qed.

(** X18: above the genesis number [verifyCascadingFields] answers with the
    unknown-ancestor error when the parent (the last of the given
    parents, else the one the chain has) is missing, has another number
    than the header's minus one or another hash than the header names;
    and with the invalid-timestamp error when the parent is right but the
    header's time is before the parent's plus the period. *)
Theorem verifyCascadingFields_parent_errors (dpor : Dpor) (h : Header)
        (parents : list Header) :
  big_Uint64 (Number h) <> 0 ->
  let number := big_Uint64 (Number h) in
  let chosen :=
    match last parents with
    | Some p => Some p
    | None => GetHeader (ParentHash h) (wrap64 (number - 1))
    end in
  (chosen = None -> verify_cascading dpor h parents = Ret (Some ErrUnknownAncestor, dpor)) /\
  (forall parent,
      chosen = Some parent ->
      big_Uint64 (Number parent) <> wrap64 (number - 1) \/
      header_Hash parent <> ParentHash h ->
      verify_cascading dpor h parents = Ret (Some ErrUnknownAncestor, dpor)) /\
  (forall parent,
      chosen = Some parent ->
      big_Uint64 (Number parent) = wrap64 (number - 1) ->
      header_Hash parent = ParentHash h ->
      wrap64 (big_Uint64 (Time parent) + Period (dpor_config dpor)) > big_Uint64 (Time h) ->
      verify_cascading dpor h parents = Ret (Some ErrInvalidTimestamp, dpor)).
Proof.
  intros Hnum number chosen. unfold verifyCascadingFields.
  fold number. destruct (Z.eqb_spec number 0); [contradiction |].
  fold chosen. split; [| split].
  - intros ->. reflexivity.
  - intros parent -> Hbad.
    destruct (Z.eqb_spec (big_Uint64 (Number parent)) (wrap64 (number - 1)));
      [| reflexivity].
    destruct (Z.eqb_spec (header_Hash parent) (ParentHash h)); [| reflexivity].
    destruct Hbad; contradiction.
  - intros parent -> Hn Hh Ht.
    rewrite Hn, Hh, !Z.eqb_refl. simpl.
    destruct (Z.gtb_spec (wrap64 (big_Uint64 (Time parent) + Period (dpor_config dpor)))
                         (big_Uint64 (Time h))); [reflexivity | lia].
Qed.

(** What a pass of [verifyCascadingFields] above the genesis number went
    through. *)
Lemma verifyCascadingFields_pass_inv (dpor dpor' : Dpor) (h : Header)
      (parents : list Header) :
  big_Uint64 (Number h) <> 0 ->
  verify_cascading dpor h parents = Ret (None, dpor') ->
  let number := big_Uint64 (Number h) in
  exists parent snap signers,
    match last parents with
    | Some p => Some p
    | None => GetHeader (ParentHash h) (wrap64 (number - 1))
    end = Some parent /\
    big_Uint64 (Number parent) = wrap64 (number - 1) /\
    header_Hash parent = ParentHash h /\
    wrap64 (big_Uint64 (Time parent) + Period (dpor_config dpor)) <= big_Uint64 (Time h) /\
    snapshot (wrap64 (number - 1)) (ParentHash h) parents = inl snap /\
    lay_out 0 (SignersOf snap number)
            (make_slice "000"%byte
               (toInt64 (wrap64 (Epoch (dpor_config dpor) * AddressLength))))
      = Ret signers /\
    (fake dpor = NormalMode ->
     slice_range (Extra h) extraVanity (Z.of_nat (length (Extra h)) - extraSeal)
       = Ret signers) /\
    verify_seal dpor h parents = Ret (None, dpor').
Proof.
  intros Hnum Hpass number. subst number. revert Hpass.
  unfold verifyCascadingFields.
  destruct (Z.eqb_spec (big_Uint64 (Number h)) 0); [contradiction |].
  destruct (match last parents with
            | Some p => Some p
            | None => GetHeader (ParentHash h) (wrap64 (big_Uint64 (Number h) - 1))
            end) as [parent |]; [| discriminate].
  destruct (Z.eqb_spec (big_Uint64 (Number parent))
                       (wrap64 (big_Uint64 (Number h) - 1))) as [Hn |];
    [| discriminate].
  destruct (Z.eqb_spec (header_Hash parent) (ParentHash h)) as [Hh |];
    [| discriminate].
  simpl orb. cbv iota.
  destruct (Z.gtb_spec (wrap64 (big_Uint64 (Time parent) + Period (dpor_config dpor)))
                       (big_Uint64 (Time h))) as [| Ht]; [discriminate |].
  destruct (snapshot _ _ _) as [snap | e] eqn:Hsnap; [| discriminate].
  destruct (toInt64 _ <? 0); [discriminate |].
  destruct (lay_out 0 _ _) as [| signers] eqn:Hlay; [discriminate |].
  simpl obind.
  destruct (slice_range (Extra h) _ _) as [| section] eqn:Hsec; [discriminate |].
  simpl obind.
  destruct (bool_decide (section = signers)) eqn:Heq; simpl negb.
  - simpl andb. cbv iota. intros Hseal.
    exists parent, snap, signers. apply bool_decide_eq_true in Heq. subst section.
    repeat split; solve [auto | lia].
  - destruct (bool_decide (NormalMode = fake dpor)) eqn:Hmode; simpl andb; cbv iota;
      [discriminate |].
    apply bool_decide_eq_false in Hmode.
    intros Hseal. exists parent, snap, signers.
    repeat split; try solve [auto | lia].
    intros Hn'. exfalso. apply Hmode. symmetry. exact Hn'.
Qed.

(** X19: a header above the genesis number that passes
    [verifyCascadingFields] has a parent (the last of the given parents,
    else the one the chain has) with the number before its own and the
    hash it names, is at least the period later than that parent, and
    passes [verifySeal]; in normal mode the part of its extra-data
    between vanity and seal is the committee of its height, 20 bytes a
    signer, in slots for [Epoch] signers. *)
Theorem verifyCascadingFields_pass (dpor dpor' : Dpor) (h : Header)
        (parents : list Header) :
  big_Uint64 (Number h) <> 0 ->
  verify_cascading dpor h parents = Ret (None, dpor') ->
  let number := big_Uint64 (Number h) in
  exists parent snap signers,
    match last parents with
    | Some p => Some p
    | None => GetHeader (ParentHash h) (wrap64 (number - 1))
    end = Some parent /\
    big_Uint64 (Number parent) = wrap64 (number - 1) /\
    header_Hash parent = ParentHash h /\
    wrap64 (big_Uint64 (Time parent) + Period (dpor_config dpor)) <= big_Uint64 (Time h) /\
    snapshot (wrap64 (number - 1)) (ParentHash h) parents = inl snap /\
    lay_out 0 (SignersOf snap number)
            (make_slice "000"%byte
               (toInt64 (wrap64 (Epoch (dpor_config dpor) * AddressLength))))
      = Ret signers /\
    (fake dpor = NormalMode ->
     slice_range (Extra h) extraVanity (Z.of_nat (length (Extra h)) - extraSeal)
       = Ret signers) /\
    verify_seal dpor h parents = Ret (None, dpor').
Proof. exact (verifyCascadingFields_pass_inv dpor dpor' h parents). Qed.

(** X20: the whole pipeline keeps the quorum: a header above the genesis
    number that passes [verifyHeader] in normal mode has, among the
    committee of its height, more than two thirds of the epoch length in
    signatures cached under its hash (epoch length below [2^63],
    committee short enough for the [uint] products). *)
Theorem verifyHeader_pass_quorum (dpor dpor' : Dpor) (h : Header)
        (parents : list Header) :
  fake dpor = NormalMode ->
  big_Uint64 (Number h) <> 0 ->
  0 <= Epoch (dpor_config dpor) < 2 ^ 63 ->
  (forall snap,
      snapshot (wrap64 (big_Uint64 (Number h) - 1)) (ParentHash h) parents = inl snap ->
      3 * Z.of_nat (length (SignersOf snap (big_Uint64 (Number h)))) < 2 ^ 64) ->
  verify_header dpor h parents = Ret (None, dpor') ->
  exists snap,
    snapshot (wrap64 (big_Uint64 (Number h) - 1)) (ParentHash h) parents = inl snap /\
    3 * cached_count header_Hash (signatures dpor') h
                     (SignersOf snap (big_Uint64 (Number h)))
    > 2 * Epoch (dpor_config dpor).
Proof.
  intros Hmode Hnum HE Hlen Hpass.
  assert (Hnf : fake dpor <> FakeMode) by (rewrite Hmode; discriminate).
  destruct (verifyHeader_pass_inv _ _ _ _ Hnf Hpass) as (_ & _ & _ & _ & _ & Hcasc).
  destruct (verifyCascadingFields_pass_inv _ _ _ _ Hnum Hcasc)
    as (_ & _ & _ & _ & _ & _ & _ & _ & _ & _ & Hseal).
  destruct (verifySeal_pass_inv _ _ _ _ Hmode Hseal)
    as (_ & leader & sg & cache & snap & Hrec & Hsnap & _ & _ & Hacc & ->).
  exists snap. split; [exact Hsnap |]. simpl signatures.
  pose proof (ecrecover_caches _ _ _ _ _ _ _ _ _ _ Hrec) as Hcached.
  destruct (acceptSigs_cached header_Hash h cache _ _ Hcached HE (Hlen snap Hsnap))
    as (accept & Hacc' & Hiff).
  rewrite Hacc in Hacc'. injection Hacc' as <-. apply Hiff. reflexivity.
Qed.

End VerifyFacts.

(** ** The handler, further *)

Section HandlerMore.

Variable Block : Type.
Variable RemoteSigner : Type.
Variable FsmState : Type.
Variable RecoverBlockFromMsg : Msg -> option RemoteSigner -> Block + error.
Variable RecoverHeaderFromMsg : Msg -> option RemoteSigner -> Header + error.
Variable boh_Number : BlockOrHeader Block -> Z.
Variable FSM :
  FsmState -> BlockOrHeader Block -> MsgCode ->
  (option (list (BlockOrHeader Block)) * Action * MsgCode * option error) * FsmState.

Local Abbreviation decode :=
  (decode_input Block RemoteSigner RecoverBlockFromMsg RecoverHeaderFromMsg).
Local Abbreviation handle :=
  (handleLBFT2Msg Block RemoteSigner FsmState RecoverBlockFromMsg RecoverHeaderFromMsg
                  boh_Number FSM).
Local Abbreviation started := (handle_output Block RemoteSigner).

(** The calls started before the state machine is asked. *)
Lemma sync_only (input : BlockOrHeader Block) (currentNumber : Z)
      (p : option RemoteSigner) (e : effect Block RemoteSigner) :
  e ∈ match p with
      | Some peer =>
          if boh_Number input >? wrap64 (currentNumber + 1) then [SyncFrom peer]
          else []
      | None => []
      end ->
  exists peer, e = SyncFrom peer.
Proof.
  destruct p as [peer |]; [| intros H; inversion H].
  destruct (boh_Number input >? wrap64 (currentNumber + 1)); [| intros H; inversion H].
  intros H. apply list_elem_of_singleton in H. eauto.
Qed.

(** The handler hands nothing but the decoder's error to its caller. *)
Lemma handle_result_cases (currentNumber : Z) (fsm : FsmState) (msg : Msg)
      (p : option RemoteSigner) :
  match decode msg p with
  | inr e => handle currentNumber fsm msg p = ([], fsm, Ret (Some e))
  | inl _ =>
      snd (handle currentNumber fsm msg p) = Ret None \/
      snd (handle currentNumber fsm msg p) = Panic
  end.
Proof.
  unfold handleLBFT2Msg.
  destruct (decode msg p) as [[input msgCode] | e]; [| reflexivity].
  destruct (boh_Number input <? currentNumber); [left; reflexivity |].
  destruct (bool_decide (msgCode = ImpeachPreprepareMsgCode) && bool_decide (p <> None));
    [left; reflexivity |].
  destruct (FSM fsm input msgCode) as [[[[output action] msgCode'] err] fsm'].
  destruct err as [[] |]; simpl; try (left; reflexivity);
    destruct (snd (started output action msgCode')); auto.
Qed.

(** X25: the handler returns an error exactly when the message could not be
    decoded, and then it is the decoder's error, nothing has been started
    and the state machine has not been touched; every error of the state
    machine is kept from the caller. *)
Theorem handleLBFT2Msg_error_is_decoding (currentNumber : Z) (fsm : FsmState)
        (msg : Msg) (p : option RemoteSigner) (e : error) :
  (snd (handle currentNumber fsm msg p) = Ret (Some e) <-> decode msg p = inr e) /\
  (decode msg p = inr e -> fst (handle currentNumber fsm msg p) = ([], fsm)).
Proof.
  pose proof (handle_result_cases currentNumber fsm msg p) as H.
  destruct (decode msg p) as [[input msgCode] | e'].
  - split; [| discriminate]. split; [| discriminate].
    destruct H as [-> | ->]; discriminate.
  - rewrite H. simpl. split; [| reflexivity].
    split; intros [= ->]; reflexivity.
Qed.

(** An impeach pre-prepare block that comes from a peer never reaches the
    state machine: whatever its number, the state machine keeps its state
    and at most a sync from the peer is started. *)
Lemma handleLBFT2Msg_peer_impeach_preprepare (currentNumber : Z) (fsm : FsmState)
        (msg : Msg) (peer : RemoteSigner) :
  Code msg = PreprepareImpeachBlockMsg ->
  let res := handle currentNumber fsm msg (Some peer) in
  snd (fst res) = fsm /\
  forall e, e ∈ fst (fst res) -> e = SyncFrom peer.
Proof.
  intros Hcode. unfold handleLBFT2Msg, decode_input. rewrite Hcode.
  destruct (RecoverBlockFromMsg msg (Some peer)) as [b | err].
  2:{ simpl. split; [reflexivity |]. intros e H. inversion H. }
  assert (Hsync : forall e,
    e ∈ (if boh_Number (mkBlockOrHeader (Some b) None) >? wrap64 (currentNumber + 1)
         then [@SyncFrom Block RemoteSigner peer] else []) -> e = SyncFrom peer).
  { intros e. destruct (_ >? _); intros H; [| inversion H].
    apply list_elem_of_singleton in H. exact H. }
  destruct (boh_Number (mkBlockOrHeader (Some b) None) <? currentNumber).
  { simpl. split; [reflexivity | exact Hsync]. }
  rewrite bool_decide_eq_true_2 by reflexivity.
  rewrite bool_decide_eq_true_2 by discriminate.
  simpl. split; [reflexivity | exact Hsync].
Qed.

Lemma emit_at_pair {A} (out : list A) (f g : A -> effect Block RemoteSigner) :
  fst (and_then (emit_at out 0 f) (emit_at out 0 g)) =
    match out !! 0%nat with
    | Some o => [f o; g o]
    | None => []
    end.
Proof.
  unfold and_then, emit_at. destruct (out !! 0%nat); reflexivity.
Qed.

(** What the last [switch] starts is either free of insertions and block
    broadcasts, or one insertion followed by the broadcast of the same
    block. *)
Lemma handle_output_insert (output : option (list (BlockOrHeader Block)))
      (action : Action) (msgCode : MsgCode) :
  (forall e, e ∈ fst (started output action msgCode) ->
             (forall b, e <> InsertChain b) /\ (forall b prop, e <> BroadcastBlock b prop)) \/
  exists b, fst (started output action msgCode) = [InsertChain b; BroadcastBlock b true].
Proof.
  unfold handle_output.
  assert (Hnone :
    forall e : effect Block RemoteSigner, e ∈ [] ->
      (forall b, e <> InsertChain b) /\ (forall b prop, e <> BroadcastBlock b prop)).
  { intros e H. inversion H. }
  assert (Hone : forall (out : list (BlockOrHeader Block)) i f,
    (forall o, (forall b, f o <> @InsertChain Block RemoteSigner b) /\
               (forall b prop, f o <> BroadcastBlock b prop)) ->
    forall e, e ∈ fst (emit_at out i f) ->
      (forall b, e <> InsertChain b) /\ (forall b prop, e <> BroadcastBlock b prop)).
  { intros out i f Hf e. unfold emit_at. destruct (out !! i); simpl; intros H.
    - apply list_elem_of_singleton in H. subst e. apply Hf.
    - inversion H. }
  assert (Htwo : forall (out : list (BlockOrHeader Block)) i j f g,
    (forall o, (forall b, f o <> @InsertChain Block RemoteSigner b) /\
               (forall b prop, f o <> BroadcastBlock b prop)) ->
    (forall o, (forall b, g o <> @InsertChain Block RemoteSigner b) /\
               (forall b prop, g o <> BroadcastBlock b prop)) ->
    forall e, e ∈ fst (and_then (emit_at out i f) (emit_at out j g)) ->
      (forall b, e <> InsertChain b) /\ (forall b prop, e <> BroadcastBlock b prop)).
  { intros out i j f g Hf Hg e. unfold and_then.
    destruct (snd (emit_at out i f)); simpl.
    - apply Hone. exact Hf.
    - intros H. apply elem_of_app in H as [H | H]; revert H; apply Hone; assumption. }
  destruct output as [out |]; [| left; exact Hnone].
  destruct action; try (left; exact Hnone);
    destruct msgCode; try (left; exact Hnone);
    try (left; first [ apply Htwo | apply Hone ]; intros o; split; discriminate).
  all: rewrite emit_at_pair; destruct (out !! 0%nat) as [o |];
    [right; exists (block o); reflexivity | left; exact Hnone].
Qed.

(** X26: a block is inserted into the chain exactly when its broadcast as a
    finished block is started with it, and no other kind of block
    broadcast is ever started. *)
Theorem handleLBFT2Msg_insert_with_broadcast (currentNumber : Z) (fsm : FsmState)
        (msg : Msg) (p : option RemoteSigner) (b : option Block) :
  let tr := fst (fst (handle currentNumber fsm msg p)) in
  (InsertChain b ∈ tr <-> BroadcastBlock b true ∈ tr) /\
  BroadcastBlock b false ∉ tr.
Proof.
  unfold handleLBFT2Msg.
  assert (Hquiet : forall pre : list (effect Block RemoteSigner),
    (forall e, e ∈ pre ->
       (forall b, e <> InsertChain b) /\ (forall b prop, e <> BroadcastBlock b prop)) ->
    (InsertChain b ∈ pre <-> BroadcastBlock b true ∈ pre) /\
    BroadcastBlock b false ∉ pre).
  { intros pre Hpre. split; [split |]; intros H; apply Hpre in H as [H1 H2];
      first [destruct (H1 _ eq_refl) | destruct (H2 _ _ eq_refl)]. }
  destruct (decode msg p) as [[input msgCode] | e];
    [| apply Hquiet; intros e' H; inversion H].
  set (sync := match p with
               | Some peer =>
                   if boh_Number input >? wrap64 (currentNumber + 1)
                   then [SyncFrom peer] else []
               | None => []
               end).
  assert (Hsync : forall e, e ∈ sync -> exists peer, e = SyncFrom peer)
    by (intros e; apply sync_only).
  assert (Hs : forall e, e ∈ sync ->
       (forall b, e <> InsertChain b) /\ (forall b prop, e <> BroadcastBlock b prop)).
  { intros e H. apply Hsync in H as [peer ->]. split; discriminate. }
  destruct (boh_Number input <? currentNumber); [apply Hquiet, Hs |].
  destruct (bool_decide (msgCode = ImpeachPreprepareMsgCode) && bool_decide (p <> None));
    [apply Hquiet, Hs |].
  destruct (FSM fsm input msgCode) as [[[[output action] msgCode'] err] fsm'].
  assert (Hpre : forall pre : list (effect Block RemoteSigner),
    (forall e, e ∈ pre ->
       (forall b, e <> InsertChain b) /\ (forall b prop, e <> BroadcastBlock b prop)) ->
    (InsertChain b ∈ pre ++ fst (started output action msgCode')
     <-> BroadcastBlock b true ∈ pre ++ fst (started output action msgCode')) /\
    BroadcastBlock b false ∉ pre ++ fst (started output action msgCode')).
  { intros pre Hp.
    destruct (handle_output_insert output action msgCode') as [Hout | [b' Hout]].
    - apply Hquiet. intros e H. apply elem_of_app in H as [H | H]; auto.
    - rewrite Hout. rewrite !elem_of_app, !elem_of_cons.
      split; [split |]; intros [H | H].
      + apply Hp in H as [H _]. destruct (H _ eq_refl).
      + destruct H as [[= ->] | [[=] | H]]; [| inversion H]. right. right. left.
        reflexivity.
      + apply Hp in H as [_ H]. destruct (H _ _ eq_refl).
      + destruct H as [[=] | [[= ->] | H]]; [| inversion H]. right. left. reflexivity.
      + apply Hp in H as [_ H]. destruct (H _ _ eq_refl).
      + destruct H as [[=] | [[=] | H]]. inversion H. }
  assert (Hcalled : forall e, e ∈ sync ++ [CallFSM input msgCode] ->
       (forall b, e <> InsertChain b) /\ (forall b prop, e <> BroadcastBlock b prop)).
  { intros e H. apply elem_of_app in H as [H | H]; [auto |].
    apply list_elem_of_singleton in H. subst e. split; discriminate. }
  destruct err as [[] |]; simpl; try (apply Hquiet, Hcalled); apply Hpre; try exact Hcalled.
  intros e H. apply elem_of_app in H as [H | H]; [auto |].
  apply list_elem_of_singleton in H. subst e. split; discriminate.
Qed.

(** X27: when the state machine answers with an error other than the
    unknown-ancestor one, whatever output and action came with it are
    thrown away: nothing is broadcast or inserted, the state machine
    keeps the state it moved to, and the handler returns nil. *)
Theorem handleLBFT2Msg_fsm_error_silences (currentNumber : Z) (fsm : FsmState)
        (msg : Msg) (p : option RemoteSigner) (input : BlockOrHeader Block)
        (msgCode : MsgCode) (e : error) :
  decode msg p = inl (input, msgCode) ->
  snd (fst (FSM fsm input msgCode)) = Some e ->
  e <> ErrUnknownAncestor ->
  let res := handle currentNumber fsm msg p in
  snd res = Ret None /\
  (forall ef, ef ∈ fst (fst res) -> ~ is_output_effect ef) /\
  (snd (fst res) = fsm \/ snd (fst res) = snd (FSM fsm input msgCode)).
Proof.
  intros Hdec Herr Hne. unfold handleLBFT2Msg. rewrite Hdec.
  set (sync := match p with
               | Some peer =>
                   if boh_Number input >? wrap64 (currentNumber + 1)
                   then [SyncFrom peer] else []
               | None => []
               end).
  assert (Hsync : forall ef, ef ∈ sync -> ~ is_output_effect ef).
  { intros ef H. apply sync_only in H as [peer ->]. simpl. tauto. }
  destruct (boh_Number input <? currentNumber); [simpl; auto |].
  destruct (bool_decide (msgCode = ImpeachPreprepareMsgCode) && bool_decide (p <> None));
    [simpl; auto |].
  destruct (FSM fsm input msgCode) as [[[[output action] msgCode'] err] fsm'].
  simpl in Herr. subst err.
  assert (Hcalled : forall ef, ef ∈ sync ++ [CallFSM input msgCode] ->
                               ~ is_output_effect ef).
  { intros ef H. apply elem_of_app in H as [H | H]; [auto |].
    apply list_elem_of_singleton in H. subst ef. simpl. tauto. }
  destruct e; try contradiction; simpl; auto.
Qed.

(** X28: the handler indexes the output of the state machine without
    looking at its length: it does not panic when the output is nil or
    has two entries or more, and it does panic on an output that is
    empty but not nil when the action is to broadcast a prepare
    header. *)
Theorem handleLBFT2Msg_panics (currentNumber : Z) (fsm : FsmState)
        (msg : Msg) (p : option RemoteSigner) (input : BlockOrHeader Block)
        (msgCode : MsgCode) :
  decode msg p = inl (input, msgCode) ->
  let res := handle currentNumber fsm msg p in
  ((forall out, fst (fst (fst (fst (FSM fsm input msgCode)))) = Some out ->
                (2 <= length out)%nat) ->
   snd res = Ret None) /\
  (currentNumber <= boh_Number input ->
   ~ (msgCode = ImpeachPreprepareMsgCode /\ p <> None) ->
   forall fsm',
     FSM fsm input msgCode = ((Some [], BroadcastMsgAction, PrepareMsgCode, None), fsm') ->
     snd res = Panic).
Proof.
  intros Hdec. unfold handleLBFT2Msg. rewrite Hdec.
  destruct (Z.ltb_spec (boh_Number input) currentNumber) as [Hlt | Hge].
  { simpl. split; [reflexivity | intros; lia]. }
  destruct (bool_decide (msgCode = ImpeachPreprepareMsgCode) && bool_decide (p <> None))
    eqn:Himp.
  { simpl. split; [reflexivity |]. intros _ Hno. exfalso. apply Hno.
    apply andb_prop in Himp as [H1 H2].
    apply bool_decide_eq_true in H1, H2. split; assumption. }
  destruct (FSM fsm input msgCode) as [[[[output action] msgCode'] err] fsm'].
  simpl fst. split.
  - intros Hlen.
    assert (Hok : snd (started output action msgCode') = Ret tt).
    { unfold handle_output. destruct output as [out |]; [| reflexivity].
      specialize (Hlen out eq_refl).
      destruct out as [| o1 [| o2 out]]; simpl in Hlen; try lia.
      destruct action; try reflexivity; destruct msgCode'; reflexivity. }
    destruct err as [[] |]; simpl; rewrite ?Hok; reflexivity.
  - intros _ _ fsm'' [= -> -> -> -> _]. reflexivity.
Qed.

End HandlerMore.

(** ** The committee laid out in the extra-data *)

Lemma int_mul_small (a b : Z) : 0 <= a * b < 2 ^ 63 -> int_mul a b = a * b.
Proof.
  intros H. unfold int_mul. rewrite wrap64_small by lia. apply toInt64_small. lia.
Qed.

Lemma copy_at_exact {A} (dst src : list A) (a : Z) :
  0 <= a ->
  a + Z.of_nat (length src) <= Z.of_nat (length dst) ->
  copy_at dst a (a + Z.of_nat (length src)) src =
    Ret (take (Z.to_nat a) dst ++ src
         ++ drop (Z.to_nat (a + Z.of_nat (length src))) dst).
Proof.
  intros Ha Hb. unfold copy_at.
  destruct (Z.leb_spec 0 a); [| lia].
  destruct (Z.leb_spec a (a + Z.of_nat (length src))); [| lia].
  destruct (Z.leb_spec (a + Z.of_nat (length src)) (Z.of_nat (length dst))); [| lia].
  simpl. do 3 f_equal.
  replace (Z.to_nat (a + Z.of_nat (length src) - a)) with (length src) by lia.
  unfold copy_slice.
  assert (Hlen : length (take (length src) (drop (Z.to_nat a) dst)) = length src).
  { rewrite length_take, length_drop. lia. }
  rewrite Hlen, firstn_all.
  rewrite drop_ge by lia. apply app_nil_r.
Qed.

Lemma copy_at_length {A} (dst src dst' : list A) (a b : Z) :
  copy_at dst a b src = Ret dst' -> length dst' = length dst.
Proof.
  unfold copy_at.
  destruct (Z.leb_spec 0 a); [| discriminate].
  destruct (Z.leb_spec a b); [| discriminate].
  destruct (Z.leb_spec b (Z.of_nat (length dst))); [| discriminate].
  simpl. intros [= <-].
  rewrite !length_app, length_copy_slice, !length_take, !length_drop. lia.
Qed.

Section Layout.

Variable address_bytes : Z -> list byte.

Local Abbreviation lay_out := (fill_signers address_bytes).

Lemma fill_signers_from (committee : list Z) :
  forall (round : Z) (signers : list byte),
    Forall (fun a => Z.of_nat (length (address_bytes a)) = AddressLength) committee ->
    0 <= round ->
    (round + Z.of_nat (length committee)) * AddressLength <= Z.of_nat (length signers) ->
    Z.of_nat (length signers) < 2 ^ 63 ->
    lay_out round committee signers =
      Ret (take (Z.to_nat (round * AddressLength)) signers
           ++ concat (map address_bytes committee)
           ++ drop (Z.to_nat ((round + Z.of_nat (length committee)) * AddressLength))
                   signers).
Proof.
  unfold AddressLength.
  induction committee as [| a rest IH]; intros round signers Hall Hround Hfit Hmax.
  - simpl. rewrite Z.add_0_r, take_drop. reflexivity.
  - apply Forall_cons in Hall as [Ha Hall].
    simpl fill_signers. simpl length in Hfit.
    rewrite !int_mul_small by (unfold AddressLength; lia).
    replace ((round + 1) * AddressLength)
      with (round * AddressLength + Z.of_nat (length (address_bytes a)))
      by (unfold AddressLength; lia).
    rewrite copy_at_exact by (unfold AddressLength; lia).
    simpl obind. unfold AddressLength.
    remember (take (Z.to_nat (round * 20)) signers) as pre eqn:Epre.
    remember (drop (Z.to_nat (round * 20 + Z.of_nat (length (address_bytes a))))
                   signers) as post eqn:Epost.
    assert (Hpre : length pre = Z.to_nat (round * 20)).
    { subst pre. rewrite length_take. lia. }
    assert (Hpost : Z.of_nat (length post) = Z.of_nat (length signers) - (round + 1) * 20).
    { subst post. rewrite length_drop. lia. }
    rewrite IH; try assumption; try lia.
    2:{ rewrite !length_app. lia. }
    2:{ rewrite !length_app. lia. }
    f_equal. simpl concat. rewrite <- !app_assoc.
    replace (Z.to_nat ((round + 1) * 20))
      with (length pre + length (address_bytes a))%nat by lia.
    rewrite (app_assoc pre (address_bytes a) post).
    rewrite take_app_length'
      by (rewrite length_app; reflexivity).
    rewrite <- app_assoc. do 3 f_equal.
    replace (Z.to_nat ((round + 1 + Z.of_nat (length rest)) * 20))
      with (length (pre ++ address_bytes a) + Z.to_nat (Z.of_nat (length rest) * 20))%nat
      by (rewrite length_app; lia).
    rewrite drop_app_add' by reflexivity.
    subst post. rewrite drop_drop. f_equal. simpl length. lia.
Qed.

Lemma fill_signers_too_many (committee : list Z) :
  forall (round slots : Z) (signers : list byte),
    0 <= round <= slots ->
    (slots + 1) * AddressLength < 2 ^ 63 ->
    Z.of_nat (length signers) = slots * AddressLength ->
    slots < round + Z.of_nat (length committee) ->
    lay_out round committee signers = Panic.
Proof.
  unfold AddressLength.
  induction committee as [| a rest IH]; intros round slots signers Hround Hmax Hlen Hmany.
  - simpl in Hmany. lia.
  - simpl fill_signers.
    rewrite !int_mul_small by (unfold AddressLength; lia).
    destruct (copy_at signers (round * AddressLength) ((round + 1) * AddressLength)
                      (address_bytes a)) as [| signers'] eqn:Hcopy; [reflexivity |].
    simpl obind.
    assert (Hin : round < slots).
    { revert Hcopy. unfold copy_at, AddressLength.
      destruct (Z.leb_spec 0 (round * 20)); [| discriminate].
      destruct (Z.leb_spec (round * 20) ((round + 1) * 20)); [| discriminate].
      destruct (Z.leb_spec ((round + 1) * 20) (Z.of_nat (length signers)));
        [| discriminate].
      intros _. lia. }
    apply copy_at_length in Hcopy.
    apply (IH (round + 1) slots); try lia.
    simpl length in Hmany. lia.
Qed.

(** X21: the bytes that [verifyCascadingFields] expects between vanity and
    seal: for a committee of 20-byte addresses that fits the epoch, the
    addresses one after the other, then zeros up to 20 bytes for each of
    the [Epoch] slots. *)
Theorem fill_signers_committee (committee : list Z) (slots : Z) :
  Forall (fun a => Z.of_nat (length (address_bytes a)) = AddressLength) committee ->
  Z.of_nat (length committee) <= slots ->
  slots * AddressLength < 2 ^ 63 ->
  lay_out 0 committee (make_slice "000"%byte (slots * AddressLength)) =
    Ret (concat (map address_bytes committee)
         ++ replicate (Z.to_nat ((slots - Z.of_nat (length committee)) * AddressLength))
                      "000"%byte).
Proof.
  intros Hall Hfit Hmax.
  assert (Hlen : Z.of_nat (length (make_slice "000"%byte (slots * AddressLength)))
                 = slots * AddressLength).
  { rewrite length_make_slice. unfold AddressLength in *. lia. }
  rewrite fill_signers_from; try assumption; try lia.
  2:{ rewrite Hlen. unfold AddressLength in *. lia. }
  rewrite Z.mul_0_l, take_0. simpl app. do 2 f_equal.
  unfold make_slice. rewrite drop_replicate. f_equal.
  unfold AddressLength in *. lia.
Qed.

(** X22: a committee with more members than the epoch has slots makes the
    loop write past the end of the slice: it panics. *)
Theorem fill_signers_overflow (committee : list Z) (slots : Z) :
  0 <= slots ->
  (slots + 1) * AddressLength < 2 ^ 63 ->
  slots < Z.of_nat (length committee) ->
  lay_out 0 committee (make_slice "000"%byte (slots * AddressLength)) = Panic.
Proof.
  intros Hslots Hmax Hmany.
  apply (fill_signers_too_many committee 0 slots); try lia.
  rewrite length_make_slice. unfold AddressLength in *. lia.
Qed.

End Layout.

(** ** Difficulty, signing and the record of broadcasts *)

Section DifficultyFacts.

Variable header_Hash : Header -> Z.
Variable rlpKeccak256 : list rlp_item -> Z.
Variable crypto_Ecrecover : Z -> list byte -> list byte + error.
Variable pubkey_address : list byte -> Z.
Variable DecodedExtra2 : Header -> list byte + error.
Variable EncodeToExtra2 : Header -> list byte -> Header + error.
Variable Snap : Type.
Variable SignersOf : Snap -> Z -> list Z.
Variable IsLeaderOf : Snap -> Z -> Z -> bool * option error.
Variable IsSignerOf : Snap -> Z -> Z -> bool.
Variable SignerRoundOf : Snap -> Z -> Z -> Z * option error.
Variable SnapNumber : Snap -> Z.
Variable snapshot : Z -> Z -> list Header -> Snap + error.
Variable diffInTurn diffNoTurn : Z.

Local Abbreviation recover_all :=
  (ecrecover header_Hash rlpKeccak256 crypto_Ecrecover pubkey_address DecodedExtra2).
Local Abbreviation verify_seal :=
  (verifySeal header_Hash rlpKeccak256 crypto_Ecrecover pubkey_address DecodedExtra2
              Snap SignersOf IsLeaderOf snapshot diffInTurn diffNoTurn).
Local Abbreviation sign_header :=
  (signHeader header_Hash rlpKeccak256 EncodeToExtra2 Snap SignersOf IsSignerOf
              SignerRoundOf snapshot).
Local Abbreviation difficulty_of :=
  (calcDifficulty Snap IsLeaderOf SnapNumber diffInTurn diffNoTurn).

(** X23: the difficulty that [calcDifficulty] gives the sealer of the next
    block on top of a snapshot is the one [verifySeal] asks of that
    sealer: with it the difficulty checks are passed, and what
    [verifySeal] answers is decided by the leadership of the sealer and
    by the quorum alone. *)
Theorem calcDifficulty_fits_verifySeal (dpor : Dpor) (h : Header)
        (parents : list Header) (snap : Snap) (leader : Z) (sg : list Z)
        (cache : gmap Z (gmap Z (list byte))) :
  fake dpor = NormalMode ->
  big_Uint64 (Number h) <> 0 ->
  recover_all h (signatures dpor) = Ret ((leader, sg, None), cache) ->
  snapshot (wrap64 (big_Uint64 (Number h) - 1)) (ParentHash h) parents = inl snap ->
  wrap64 (SnapNumber snap + 1) = big_Uint64 (Number h) ->
  Difficulty h = difficulty_of snap leader ->
  verify_seal dpor h parents =
    Ret (match IsLeaderOf snap leader (big_Uint64 (Number h)) with
         | (_, Some e) => Some e
         | (false, None) => Some ErrUnauthorized
         | (true, None) =>
             match acceptSigs header_Hash h cache
                              (SignersOf snap (big_Uint64 (Number h)))
                              (Epoch (dpor_config dpor)) with
             | (_, Some e) => Some e
             | (false, None) => Some ErrNotEnoughSigs
             | (true, None) => None
             end
         end, set_signatures dpor cache).
Proof.
  intros Hmode Hnum Hrec Hsnap Hnext Hdiff. unfold verifySeal.
  destruct (Z.eqb_spec (big_Uint64 (Number h)) 0); [contradiction |].
  rewrite Hmode. simpl orb. cbv iota. rewrite Hrec. simpl obind. rewrite Hsnap.
  rewrite Hdiff. unfold calcDifficulty. rewrite Hnext.
  destruct (IsLeaderOf snap leader (big_Uint64 (Number h))) as [ok err].
  simpl fst. simpl signatures. simpl dpor_config.
  destruct ok; simpl negb; rewrite Z.eqb_refl; simpl andb; cbv iota.
  - destruct err as [e |]; [reflexivity |].
    destruct (acceptSigs header_Hash h cache _ _) as [[|] [e |]]; reflexivity.
  - destruct err; reflexivity.
Qed.

(** X24: the type assertion on the cache entry is made without the comma-ok
    form: for a header whose hash has no entry in the signature cache,
    [signHeader] panics as soon as the committee of the height has a
    member. *)
Theorem signHeader_uncached_panics (dpor : Dpor) (h : Header) (snap : Snap) :
  snapshot (wrap64 (big_Uint64 (Number h) - 1)) (ParentHash h) [] = inl snap ->
  signatures dpor !! header_Hash h = None ->
  SignersOf snap (big_Uint64 (Number h)) <> [] ->
  sign_header dpor h = Panic.
Proof.
  intros Hsnap Hnone Hcommittee. unfold signHeader. rewrite Hsnap, Hnone.
  destruct (_ <? 0); [reflexivity |].
  destruct (SignersOf snap (big_Uint64 (Number h))); [contradiction | reflexivity].
Qed.

(** [signHeader] returns without an error only for a signer of the
    committee of the header's height, and only when the map of signed
    blocks has no other hash for the number of the header than that of
    the header with its signature vector rewritten. *)
Lemma signHeader_signs_for_committee (dpor dpor' : Dpor) (h h' : Header) :
  sign_header dpor h = Ret (None, dpor', h') ->
  exists snap allSigs h1,
    snapshot (wrap64 (big_Uint64 (Number h) - 1)) (ParentHash h) [] = inl snap /\
    EncodeToExtra2 h allSigs = inl h1 /\
    IsSignerOf snap (signer dpor) (big_Uint64 (Number h)) = true /\
    (forall signedHash,
        signedBlocks dpor !! big_Uint64 (Number h1) = Some signedHash ->
        signedHash = header_Hash h1) /\
    exists d sighash,
      sigHash rlpKeccak256 h1 = Ret d /\
      signFn dpor (signer dpor) d = inl sighash.
Proof.
  unfold signHeader.
  destruct (snapshot _ _ _) as [snap | e] eqn:Hsnap; [| discriminate].
  destruct (_ <? 0); [discriminate |].
  destruct (fill_sigs _ _ _ _) as [| allSigs]; [discriminate |].
  simpl obind.
  destruct (EncodeToExtra2 h allSigs) as [h1 | e] eqn:Henc; [| discriminate].
  destruct (IsSignerOf snap (signer dpor) (big_Uint64 (Number h))) eqn:Hsigner;
    [| discriminate].
  intros Hpass.
  assert (Hsigned :
    (do! d <- sigHash rlpKeccak256 h1 ;
     match signFn dpor (signer dpor) d with
     | inr e => Ret (Some e, dpor, h1)
     | inl sighash =>
         let round := fst (SignerRoundOf snap (signer dpor) (big_Uint64 (Number h))) in
         do! allSigs' <- copy_at allSigs (int_mul round extraSeal)
                                 (int_mul (round + 1) extraSeal) sighash ;
         match EncodeToExtra2 h1 allSigs' with
         | inr e => Ret (Some e, dpor, h1)
         | inl header2 => Ret (None, dpor, header2)
         end
     end) = Ret (None, dpor', h') /\
    forall signedHash,
      signedBlocks dpor !! big_Uint64 (Number h1) = Some signedHash ->
      signedHash = header_Hash h1).
  { destruct (signedBlocks dpor !! big_Uint64 (Number h1)) as [sh |].
    - destruct (Z.eqb_spec sh (header_Hash h1)) as [Heq |]; simpl negb in Hpass;
        cbv iota in Hpass; [| discriminate].
      split; [exact Hpass |]. intros ? [= <-]. exact Heq.
    - split; [exact Hpass |]. intros ? [=]. }
  destruct Hsigned as [Hsign Hrec].
  exists snap, allSigs, h1. repeat split; try assumption.
  destruct (sigHash rlpKeccak256 h1) as [| d]; [discriminate |].
  simpl obind in Hsign.
  destruct (signFn dpor (signer dpor) d) as [sighash | e] eqn:Hfn; [| discriminate].
  exists d, sighash. split; [reflexivity | exact Hfn].
Qed.

End DifficultyFacts.

Lemma reader_Read_nil (stream : list byte) : reader_Read stream [] = [].
Proof. unfold reader_Read, copy_slice. rewrite drop_nil. reflexivity. Qed.

Lemma newMsgID_same_key (number hash : Z) (code : MsgCode) (msg msg' : Msg) :
  newMsgID number hash code msg = newMsgID number hash code msg'.
Proof. unfold newMsgID. rewrite !reader_Read_nil. reflexivity. Qed.

(** X29: the payload is read into a slice of length zero, so nothing of it
    reaches the hash: the identifier of a message is made of number,
    hash and code alone, its message hash being the offset basis of
    FNV-1a for every message. *)
Theorem newMsgID_ignores_payload (number hash : Z) (code : MsgCode) (msg msg' : Msg) :
  newMsgID number hash code msg = newMsgID number hash code msg' /\
  msgHash (newMsgID number hash code msg) = offset32.
Proof.
  unfold newMsgID. rewrite !reader_Read_nil. simpl fnv32a_Write.
  split; reflexivity.
Qed.

Section RecordFacts.

Variable Block : Type.
Variable boh_Number : BlockOrHeader Block -> Z.
Variable boh_Hash : BlockOrHeader Block -> Z.
Variable Cache : Type.
Variable cache_Add : Cache -> msgID -> bool -> Cache.
Variable cache_Get : Cache -> msgID -> option bool * Cache.

Local Abbreviation relay :=
  (reBroadcast Block boh_Number boh_Hash Cache cache_Add cache_Get).

(** X30: with a cache that finds what was just added and finds again what it
    has just found, [reBroadcast] relays at most once per number, hash
    and code: after a first call, a second call for the same input and
    code relays nothing, whatever the second message carries. *)
Theorem reBroadcast_once (br : Cache) (input : BlockOrHeader Block) (code : MsgCode)
        (msg msg' : Msg) :
  (forall c k v, fst (cache_Get (cache_Add c k v) k) = Some v) ->
  (forall c k v, fst (cache_Get c k) = Some v ->
                 fst (cache_Get (snd (cache_Get c k)) k) = Some v) ->
  fst (relay (snd (relay br input code msg)) input code msg') = [].
Proof.
  intros Hadd Hget.
  unfold reBroadcast, ifBroadcasted, markAsBroadcasted.
  rewrite (newMsgID_same_key (boh_Number input) (boh_Hash input) code msg' msg).
  set (k := newMsgID (boh_Number input) (boh_Hash input) code msg).
  destruct (cache_Get br k) as [found br1] eqn:Hfirst.
  assert (Hfound : fst (cache_Get br k) = found) by (rewrite Hfirst; reflexivity).
  destruct found as [[|] |]; simpl negb; cbv iota; simpl snd.
  - specialize (Hget br k true Hfound). rewrite Hfirst in Hget. simpl snd in Hget.
    destruct (cache_Get br1 k) as [found' br2]. simpl in Hget. subst found'.
    reflexivity.
  - specialize (Hadd br1 k true).
    destruct (cache_Get (cache_Add br1 k true) k) as [found' br2]. simpl in Hadd.
    subst found'. reflexivity.
  - specialize (Hadd br1 k true).
    destruct (cache_Get (cache_Add br1 k true) k) as [found' br2]. simpl in Hadd.
    subst found'. reflexivity.
Qed.

End RecordFacts.

(** * Instances of the further properties *)

(** X4, witness: signer [11] is the leader of height one of [ex_snap3],
    twice over. *)
Lemma isLeader_unique_witness :
  isLeader ex_snap3 11 1 = Ret (true, None) /\
  isLeader ex_snap3 11 1 = Ret (true, None) /\
  11 = 11.
Proof.
  assert (H : isLeader ex_snap3 11 1 = Ret (true, None)) by (vm_compute; reflexivity).
  repeat (split; [exact H |]).
  exact (isLeader_unique ex_snap3 11 11 1 None None H H).
Defined.

(** X6, witness: the five headers of [ex_chain] on the genesis snapshot. *)
Lemma apply_result_fields_witness :
  apply ex_Hash ex_Elect ex_snap3 ex_chain = Ret (inl ex_after5) /\
  last ex_chain = Some (ex_header 5 105 1 [] []) /\
  sNumber ex_after5 = big_Uint64 (Number (ex_header 5 105 1 [] [])) /\
  sHash ex_after5 = ex_Hash (ex_header 5 105 1 [] []) /\
  config ex_after5 = config ex_snap3 /\
  Candidates ex_after5 = stubCandidates /\
  Recents ex_after5 = Recents ex_snap3.
Proof.
  assert (Happ : apply ex_Hash ex_Elect ex_snap3 ex_chain = Ret (inl ex_after5))
    by (vm_compute; reflexivity).
  assert (Hlast : last ex_chain = Some (ex_header 5 105 1 [] [])) by reflexivity.
  repeat (split; [assumption |]).
  exact (apply_result_fields ex_Hash ex_Elect ex_snap3 ex_after5 ex_chain _ Happ Hlast).
Defined.

(** X7, witness: in [ex_chain] the last checkpoint is the header of
    number four. *)
Lemma apply_Signers_last_checkpoint_witness :
  ex_chain <> [] /\
  apply ex_Hash ex_Elect ex_snap3 ex_chain = Ret (inl ex_after5) /\
  Signers ex_after5 =
    match last_checkpoint None ex_chain with
    | Some h => ex_Elect stubRpts (toInt64 (ex_Hash h mod 2 ^ 64))
                         (toInt64 (Epoch (config ex_snap3)))
    | None => copy_slice (make_slice zeroAddress (Epoch (config ex_snap3)))
                         (Signers ex_snap3)
    end.
Proof.
  assert (Hne : ex_chain <> []) by discriminate.
  assert (Happ : apply ex_Hash ex_Elect ex_snap3 ex_chain = Ret (inl ex_after5))
    by (vm_compute; reflexivity).
  repeat (split; [assumption |]).
  exact (apply_Signers_last_checkpoint ex_Hash ex_Elect ex_snap3 ex_after5 ex_chain
           Hne Happ).
Defined.

(** X8, witness: fifteen of twenty-one. *)
Lemma percentagePBFT_threshold_witness :
  0 <= 15 /\ 3 * 15 < 2 ^ 64 /\ 0 <= 21 < 2 ^ 63 /\
  (percentagePBFT 15 21 = true <-> 2 * 21 / 3 + 1 <= 15).
Proof.
  assert (H1 : 0 <= 15) by lia.
  assert (H2 : 3 * 15 < 2 ^ 64) by lia.
  assert (H3 : 0 <= 21 < 2 ^ 63) by lia.
  repeat (split; [assumption |]).
  exact (percentagePBFT_threshold 15 21 H1 H2 H3).
Defined.

(** X9, witness: the committee of [ex_snap3] with its first two members
    swapped. *)
Lemma acceptSigs_Permutation_witness :
  [12; 11; 13] ≡ₚ [11; 12; 13] /\
  acceptSigs ex_Hash ex_sealed2 ex_cache_sealed2 [12; 11; 13] 3 =
  acceptSigs ex_Hash ex_sealed2 ex_cache_sealed2 [11; 12; 13] 3.
Proof.
  assert (Hp : [12; 11; 13] ≡ₚ [11; 12; 13]) by apply perm_swap.
  split; [exact Hp |].
  exact (acceptSigs_Permutation ex_Hash ex_sealed2 ex_cache_sealed2 _ _ 3 Hp).
Defined.

(** X10, witness: the three signatures of [ex_sealed3], and the same with
    one more. *)
Lemma acceptSigs_monotone_witness :
  ex_cache_sealed3 !! ex_Hash ex_sealed3 = Some ex_three_sigs /\
  (<[ex_Hash ex_sealed3 := <[14 := ex_sig "014"]> ex_three_sigs]> ex_cache_sealed3)
    !! ex_Hash ex_sealed3 = Some (<[14 := ex_sig "014"]> ex_three_sigs) /\
  (forall a, is_Some (ex_three_sigs !! a) ->
             is_Some (<[14 := ex_sig "014"]> ex_three_sigs !! a)) /\
  0 <= 3 < 2 ^ 63 /\
  3 * Z.of_nat (length [11; 12; 13]) < 2 ^ 64 /\
  acceptSigs ex_Hash ex_sealed3 ex_cache_sealed3 [11; 12; 13] 3 = (true, None) /\
  acceptSigs ex_Hash ex_sealed3
             (<[ex_Hash ex_sealed3 := <[14 := ex_sig "014"]> ex_three_sigs]>
                ex_cache_sealed3)
             [11; 12; 13] 3 = (true, None).
Proof.
  assert (Hs : ex_cache_sealed3 !! ex_Hash ex_sealed3 = Some ex_three_sigs)
    by (vm_compute; reflexivity).
  assert (Hs' :
    (<[ex_Hash ex_sealed3 := <[14 := ex_sig "014"]> ex_three_sigs]> ex_cache_sealed3)
      !! ex_Hash ex_sealed3 = Some (<[14 := ex_sig "014"]> ex_three_sigs))
    by (vm_compute; reflexivity).
  assert (Hsub : forall a, is_Some (ex_three_sigs !! a) ->
                           is_Some (<[14 := ex_sig "014"]> ex_three_sigs !! a)).
  { intros a Ha. destruct (decide (a = 14)) as [-> | Hne].
    - rewrite lookup_insert_eq. eauto.
    - rewrite lookup_insert_ne by congruence. exact Ha. }
  assert (HE : 0 <= 3 < 2 ^ 63) by lia.
  assert (Hlen : 3 * Z.of_nat (length [11; 12; 13]) < 2 ^ 64) by (simpl; lia).
  assert (Hacc : acceptSigs ex_Hash ex_sealed3 ex_cache_sealed3 [11; 12; 13] 3
                 = (true, None)) by (vm_compute; reflexivity).
  repeat (split; [assumption |]).
  exact (acceptSigs_monotone ex_Hash ex_sealed3 _ _ _ _ [11; 12; 13] 3
           Hs Hs' Hsub HE Hlen Hacc).
Defined.

(** X11, witness: [ecrecover] on [ex_sealed2], from the empty cache and from the cache
    it leaves behind. *)
Lemma ecrecover_answer_ignores_cache_witness :
  ex_ecrecover ex_sealed2 ∅ = Ret ((11, [11; 12], None), ex_cache_sealed2) /\
  ex_ecrecover ex_sealed2 ex_cache_sealed2
    = Ret ((11, [11; 12], None), ex_cache_sealed2) /\
  ((11, [11; 12], None) : Z * list Z * option error) = (11, [11; 12], None).
Proof.
  assert (H1 : ex_ecrecover ex_sealed2 ∅ = Ret ((11, [11; 12], None), ex_cache_sealed2))
    by (vm_compute; reflexivity).
  assert (H2 : ex_ecrecover ex_sealed2 ex_cache_sealed2
               = Ret ((11, [11; 12], None), ex_cache_sealed2))
    by (vm_compute; reflexivity).
  repeat (split; [assumption |]).
  exact (ecrecover_answer_ignores_cache ex_Hash ex_rlpKeccak256 ex_Ecrecover
           ex_pubkey_address ex_DecodedExtra2 ex_sealed2 ∅ ex_cache_sealed2
           ex_cache_sealed2 ex_cache_sealed2 (11, [11; 12], None) (11, [11; 12], None)
           H1 H2).
Defined.

(** X12, witness: [ecrecover] on [ex_sealed0] with the signatures of [12] and
    [13] cached for it. *)
Lemma ecrecover_keeps_signatures_witness :
  ex_ecrecover ex_sealed0 ex_cache_sealed0
    = Ret ((11, [], None), {[ ex_Hash ex_sealed0 := ex_three_sigs ]}) /\
  ex_cache_sealed0 !! ex_Hash ex_sealed0
    = Some {[ 12 := ex_sig "012"; 13 := ex_sig "013" ]} /\
  exists m',
    ({[ ex_Hash ex_sealed0 := ex_three_sigs ]} : gmap Z (gmap Z (list byte)))
      !! ex_Hash ex_sealed0 = Some m' /\
    (forall a, is_Some (({[ 12 := ex_sig "012"; 13 := ex_sig "013" ]}
                           : gmap Z (list byte)) !! a) ->
               is_Some (m' !! a)) /\
    (forall leader sg,
        ((11, [], None) : Z * list Z * option error) = (leader, sg, None) ->
        forall a, a <> leader -> a ∉ sg ->
                  m' !! a = ({[ 12 := ex_sig "012"; 13 := ex_sig "013" ]}
                               : gmap Z (list byte)) !! a).
Proof.
  assert (H : ex_ecrecover ex_sealed0 ex_cache_sealed0
              = Ret ((11, [], None), {[ ex_Hash ex_sealed0 := ex_three_sigs ]}))
    by (vm_compute; reflexivity).
  assert (Hm : ex_cache_sealed0 !! ex_Hash ex_sealed0
               = Some {[ 12 := ex_sig "012"; 13 := ex_sig "013" ]})
    by (vm_compute; reflexivity).
  repeat (split; [assumption |]).
  exact (ecrecover_keeps_signatures ex_Hash ex_rlpKeccak256 ex_Ecrecover
           ex_pubkey_address ex_DecodedExtra2 ex_sealed0 ex_cache_sealed0
           {[ ex_Hash ex_sealed0 := ex_three_sigs ]} (11, [], None)
           {[ 12 := ex_sig "012"; 13 := ex_sig "013" ]} H Hm).
Defined.

(** X13, witness: [ecrecover] on [ex_sealed2], twice. *)
Lemma ecrecover_idempotent_witness :
  ex_ecrecover ex_sealed2 ∅ = Ret ((11, [11; 12], None), ex_cache_sealed2) /\
  ex_ecrecover ex_sealed2 ex_cache_sealed2
    = Ret ((11, [11; 12], None), ex_cache_sealed2).
Proof.
  assert (H : ex_ecrecover ex_sealed2 ∅ = Ret ((11, [11; 12], None), ex_cache_sealed2))
    by (vm_compute; reflexivity).
  split; [exact H |].
  exact (ecrecover_idempotent ex_Hash ex_rlpKeccak256 ex_Ecrecover
           ex_pubkey_address ex_DecodedExtra2 ex_sealed2 ∅ ex_cache_sealed2
           (11, [11; 12], None) H).
Defined.

(** X14, witness: [ecrecover] on [ex_sealed2] from the empty cache. *)
Lemma ecrecover_caches_all_witness :
  ex_ecrecover ex_sealed2 ∅ = Ret ((11, [11; 12], None), ex_cache_sealed2) /\
  exists m',
    ex_cache_sealed2 !! ex_Hash ex_sealed2 = Some m' /\
    is_Some (m' !! 11) /\
    forall a, a ∈ [11; 12] -> is_Some (m' !! a).
Proof.
  assert (H : ex_ecrecover ex_sealed2 ∅ = Ret ((11, [11; 12], None), ex_cache_sealed2))
    by (vm_compute; reflexivity).
  split; [exact H |].
  exact (ecrecover_caches_all ex_Hash ex_rlpKeccak256 ex_Ecrecover
           ex_pubkey_address ex_DecodedExtra2 ex_sealed2 ∅ ex_cache_sealed2
           11 [11; 12] H).
Defined.


(** X16, witness: [ex_full] on top of [ex_genesis]. *)
Lemma verifyHeader_pass_structure_witness :
  fake (ex_dpor ∅) <> FakeMode /\
  ex_verifyHeader (ex_dpor ∅) ex_full [ex_genesis] = Ret (None, ex_dpor ex_cache_full) /\
  Time ex_full <= ex_now /\
  extraVanity + extraSeal <= Z.of_nat (length (Extra ex_full)) /\
  (Z.of_nat (length (Extra ex_full)) - extraVanity - extraSeal) mod AddressLength = 0 /\
  MixHash ex_full = 0 /\
  (0 < big_Uint64 (Number ex_full) ->
   Difficulty ex_full = ex_diffInTurn \/ Difficulty ex_full = ex_diffNoTurn).
Proof.
  assert (Hmode : fake (ex_dpor ∅) <> FakeMode) by discriminate.
  assert (Hpass : ex_verifyHeader (ex_dpor ∅) ex_full [ex_genesis]
                  = Ret (None, ex_dpor ex_cache_full)) by (vm_compute; reflexivity).
  repeat (split; [assumption |]).
  exact (verifyHeader_pass_structure ex_Hash ex_rlpKeccak256 ex_Ecrecover
           ex_pubkey_address ex_DecodedExtra2 DporSnapshot ex_SignersOf ex_IsLeaderOf
           ex_snapshot ex_diffInTurn ex_diffNoTurn ex_address_bytes ex_GetHeader ex_now
           (ex_dpor ∅) (ex_dpor ex_cache_full) ex_full [ex_genesis] Hmode Hpass).
Defined.

(** X17, witness: [ex_genesis] with no parents given and none in the chain. *)
Lemma verifyHeader_genesis_witness :
  big_Uint64 (Number ex_genesis) = 0 /\
  Time ex_genesis <= ex_now /\
  extraVanity + extraSeal <= Z.of_nat (length (Extra ex_genesis)) /\
  (Z.of_nat (length (Extra ex_genesis)) - extraVanity - extraSeal) mod AddressLength = 0 /\
  MixHash ex_genesis = 0 /\
  ex_verifyHeader (ex_dpor ∅) ex_genesis [] = Ret (None, ex_dpor ∅).
Proof.
  assert (H1 : big_Uint64 (Number ex_genesis) = 0) by reflexivity.
  assert (H2 : Time ex_genesis <= ex_now) by (vm_compute; discriminate).
  assert (H3 : extraVanity + extraSeal <= Z.of_nat (length (Extra ex_genesis)))
    by (vm_compute; discriminate).
  assert (H4 : (Z.of_nat (length (Extra ex_genesis)) - extraVanity - extraSeal)
                 mod AddressLength = 0) by reflexivity.
  assert (H5 : MixHash ex_genesis = 0) by reflexivity.
  repeat (split; [assumption |]).
  exact (verifyHeader_genesis ex_Hash ex_rlpKeccak256 ex_Ecrecover
           ex_pubkey_address ex_DecodedExtra2 DporSnapshot ex_SignersOf ex_IsLeaderOf
           ex_snapshot ex_diffInTurn ex_diffNoTurn ex_address_bytes ex_GetHeader ex_now
           (ex_dpor ∅) ex_genesis [] H1 H2 H3 H4 H5).
Defined.

(** X18, witness: [ex_full] without its parent, on a parent with another hash, and
    [ex_early] on its parent. *)
Lemma verifyCascadingFields_parent_errors_witness :
  big_Uint64 (Number ex_full) <> 0 /\
  ex_verifyCascadingFields (ex_dpor ∅) ex_full [] = Ret (Some ErrUnknownAncestor, ex_dpor ∅) /\
  ex_verifyCascadingFields (ex_dpor ∅) ex_full [ex_h1]
    = Ret (Some ErrUnknownAncestor, ex_dpor ∅) /\
  ex_verifyCascadingFields (ex_dpor ∅) ex_early [ex_genesis]
    = Ret (Some ErrInvalidTimestamp, ex_dpor ∅).
Proof.
  assert (Hnum : big_Uint64 (Number ex_full) <> 0) by (vm_compute; discriminate).
  assert (Hnum' : big_Uint64 (Number ex_early) <> 0) by (vm_compute; discriminate).
  split; [exact Hnum |].
  pose proof (verifyCascadingFields_parent_errors ex_Hash ex_rlpKeccak256 ex_Ecrecover
           ex_pubkey_address ex_DecodedExtra2 DporSnapshot ex_SignersOf ex_IsLeaderOf
           ex_snapshot ex_diffInTurn ex_diffNoTurn ex_address_bytes ex_GetHeader
           (ex_dpor ∅) ex_full [] Hnum) as (Hmissing & _ & _).
  pose proof (verifyCascadingFields_parent_errors ex_Hash ex_rlpKeccak256 ex_Ecrecover
           ex_pubkey_address ex_DecodedExtra2 DporSnapshot ex_SignersOf ex_IsLeaderOf
           ex_snapshot ex_diffInTurn ex_diffNoTurn ex_address_bytes ex_GetHeader
           (ex_dpor ∅) ex_full [ex_h1] Hnum) as (_ & Hwrong & _).
  pose proof (verifyCascadingFields_parent_errors ex_Hash ex_rlpKeccak256 ex_Ecrecover
           ex_pubkey_address ex_DecodedExtra2 DporSnapshot ex_SignersOf ex_IsLeaderOf
           ex_snapshot ex_diffInTurn ex_diffNoTurn ex_address_bytes ex_GetHeader
           (ex_dpor ∅) ex_early [ex_genesis] Hnum') as (_ & _ & Hearly).
  split; [exact (Hmissing eq_refl) |].
  split.
  - apply (Hwrong ex_h1 eq_refl). left. vm_compute. discriminate.
  - apply (Hearly ex_genesis eq_refl); vm_compute; reflexivity.
Defined.

(** X19, witness: [ex_full] on top of [ex_genesis]. *)
Lemma verifyCascadingFields_pass_witness :
  big_Uint64 (Number ex_full) <> 0 /\
  ex_verifyCascadingFields (ex_dpor ∅) ex_full [ex_genesis]
    = Ret (None, ex_dpor ex_cache_full) /\
  exists parent snap signers,
    match last [ex_genesis] with
    | Some p => Some p
    | None => ex_GetHeader (ParentHash ex_full) (wrap64 (big_Uint64 (Number ex_full) - 1))
    end = Some parent /\
    big_Uint64 (Number parent) = wrap64 (big_Uint64 (Number ex_full) - 1) /\
    ex_Hash parent = ParentHash ex_full /\
    wrap64 (big_Uint64 (Time parent) + Period (dpor_config (ex_dpor ∅)))
      <= big_Uint64 (Time ex_full) /\
    ex_snapshot (wrap64 (big_Uint64 (Number ex_full) - 1)) (ParentHash ex_full)
                [ex_genesis] = inl snap /\
    fill_signers ex_address_bytes 0 (ex_SignersOf snap (big_Uint64 (Number ex_full)))
                 (make_slice "000"%byte
                    (toInt64 (wrap64 (Epoch (dpor_config (ex_dpor ∅)) * AddressLength))))
      = Ret signers /\
    (fake (ex_dpor ∅) = NormalMode ->
     slice_range (Extra ex_full) extraVanity
                 (Z.of_nat (length (Extra ex_full)) - extraSeal) = Ret signers) /\
    ex_verifySeal (ex_dpor ∅) ex_full [ex_genesis] = Ret (None, ex_dpor ex_cache_full).
Proof.
  assert (Hnum : big_Uint64 (Number ex_full) <> 0) by (vm_compute; discriminate).
  assert (Hpass : ex_verifyCascadingFields (ex_dpor ∅) ex_full [ex_genesis]
                  = Ret (None, ex_dpor ex_cache_full)) by (vm_compute; reflexivity).
  repeat (split; [assumption |]).
  exact (verifyCascadingFields_pass ex_Hash ex_rlpKeccak256 ex_Ecrecover
           ex_pubkey_address ex_DecodedExtra2 DporSnapshot ex_SignersOf ex_IsLeaderOf
           ex_snapshot ex_diffInTurn ex_diffNoTurn ex_address_bytes ex_GetHeader
           (ex_dpor ∅) (ex_dpor ex_cache_full) ex_full [ex_genesis] Hnum Hpass).
Defined.

(** X20, witness: [ex_full] on top of [ex_genesis], with the signatures of
    the whole committee. *)
Lemma verifyHeader_pass_quorum_witness :
  fake (ex_dpor ∅) = NormalMode /\
  big_Uint64 (Number ex_full) <> 0 /\
  0 <= Epoch (dpor_config (ex_dpor ∅)) < 2 ^ 63 /\
  (forall snap,
      ex_snapshot (wrap64 (big_Uint64 (Number ex_full) - 1)) (ParentHash ex_full)
                  [ex_genesis] = inl snap ->
      3 * Z.of_nat (length (ex_SignersOf snap (big_Uint64 (Number ex_full)))) < 2 ^ 64) /\
  ex_verifyHeader (ex_dpor ∅) ex_full [ex_genesis] = Ret (None, ex_dpor ex_cache_full) /\
  exists snap,
    ex_snapshot (wrap64 (big_Uint64 (Number ex_full) - 1)) (ParentHash ex_full)
                [ex_genesis] = inl snap /\
    3 * cached_count ex_Hash (signatures (ex_dpor ex_cache_full)) ex_full
                     (ex_SignersOf snap (big_Uint64 (Number ex_full)))
    > 2 * Epoch (dpor_config (ex_dpor ∅)).
Proof.
  assert (Hmode : fake (ex_dpor ∅) = NormalMode) by reflexivity.
  assert (Hnum : big_Uint64 (Number ex_full) <> 0) by (vm_compute; discriminate).
  assert (HE : 0 <= Epoch (dpor_config (ex_dpor ∅)) < 2 ^ 63) by (simpl; lia).
  assert (Hlen : forall snap,
    ex_snapshot (wrap64 (big_Uint64 (Number ex_full) - 1)) (ParentHash ex_full)
                [ex_genesis] = inl snap ->
    3 * Z.of_nat (length (ex_SignersOf snap (big_Uint64 (Number ex_full)))) < 2 ^ 64).
  { intros snap [= <-]. vm_compute. reflexivity. }
  assert (Hpass : ex_verifyHeader (ex_dpor ∅) ex_full [ex_genesis]
                  = Ret (None, ex_dpor ex_cache_full)) by (vm_compute; reflexivity).
  repeat (split; [assumption |]).
  exact (verifyHeader_pass_quorum ex_Hash ex_rlpKeccak256 ex_Ecrecover
           ex_pubkey_address ex_DecodedExtra2 DporSnapshot ex_SignersOf ex_IsLeaderOf
           ex_snapshot ex_diffInTurn ex_diffNoTurn ex_address_bytes ex_GetHeader ex_now
           (ex_dpor ∅) (ex_dpor ex_cache_full) ex_full [ex_genesis]
           Hmode Hnum HE Hlen Hpass).
Defined.

(** X27, witness: a preprepare block for number nine, with the current
    number five, and
    a state machine that fails while handing out an output. *)
Lemma handleLBFT2Msg_fsm_error_silences_witness :
  decode_input Z Z ex_RecoverBlockFromMsg ex_RecoverHeaderFromMsg
               (ex_msg PreprepareBlockMsg 9) (Some 1)
    = inl (mkBlockOrHeader (Some 9) None, PreprepareMsgCode) /\
  snd (fst (ex_FSM_failing tt (mkBlockOrHeader (Some 9) None) PreprepareMsgCode))
    = Some (errOther 7) /\
  errOther 7 <> ErrUnknownAncestor /\
  let res := handleLBFT2Msg Z Z unit ex_RecoverBlockFromMsg ex_RecoverHeaderFromMsg
                            ex_boh_Number ex_FSM_failing 5 tt
                            (ex_msg PreprepareBlockMsg 9) (Some 1) in
  snd res = Ret None /\
  (forall ef, ef ∈ fst (fst res) -> ~ is_output_effect ef) /\
  (snd (fst res) = tt \/
   snd (fst res)
     = snd (ex_FSM_failing tt (mkBlockOrHeader (Some 9) None) PreprepareMsgCode)).
Proof.
  assert (Hdec : decode_input Z Z ex_RecoverBlockFromMsg ex_RecoverHeaderFromMsg
                              (ex_msg PreprepareBlockMsg 9) (Some 1)
                 = inl (mkBlockOrHeader (Some 9) None, PreprepareMsgCode))
    by reflexivity.
  assert (Herr : snd (fst (ex_FSM_failing tt (mkBlockOrHeader (Some 9) None)
                                          PreprepareMsgCode)) = Some (errOther 7))
    by reflexivity.
  assert (Hne : errOther 7 <> ErrUnknownAncestor) by discriminate.
  repeat (split; [assumption |]).
  exact (handleLBFT2Msg_fsm_error_silences Z Z unit ex_RecoverBlockFromMsg
           ex_RecoverHeaderFromMsg ex_boh_Number ex_FSM_failing 5 tt
           (ex_msg PreprepareBlockMsg 9) (Some 1)
           (mkBlockOrHeader (Some 9) None) PreprepareMsgCode (errOther 7)
           Hdec Herr Hne).
Defined.

(** X28, witness: the same message with a state machine that hands out an empty
    output to broadcast. *)
Lemma handleLBFT2Msg_panics_witness :
  decode_input Z Z ex_RecoverBlockFromMsg ex_RecoverHeaderFromMsg
               (ex_msg PreprepareBlockMsg 9) (Some 1)
    = inl (mkBlockOrHeader (Some 9) None, PreprepareMsgCode) /\
  snd (handleLBFT2Msg Z Z unit ex_RecoverBlockFromMsg ex_RecoverHeaderFromMsg
                      ex_boh_Number ex_FSM_empty 5 tt
                      (ex_msg PreprepareBlockMsg 9) (Some 1)) = Panic.
Proof.
  assert (Hdec : decode_input Z Z ex_RecoverBlockFromMsg ex_RecoverHeaderFromMsg
                              (ex_msg PreprepareBlockMsg 9) (Some 1)
                 = inl (mkBlockOrHeader (Some 9) None, PreprepareMsgCode))
    by reflexivity.
  split; [exact Hdec |].
  destruct (handleLBFT2Msg_panics Z Z unit ex_RecoverBlockFromMsg
              ex_RecoverHeaderFromMsg ex_boh_Number ex_FSM_empty 5 tt
              (ex_msg PreprepareBlockMsg 9) (Some 1)
              (mkBlockOrHeader (Some 9) None) PreprepareMsgCode Hdec) as [_ Hpanic].
  apply (Hpanic ltac:(vm_compute; discriminate)
                ltac:(intros [Hcode _]; discriminate) tt).
  reflexivity.
Defined.

(** X21, witness: the committee of [ex_snap3] in three slots. *)
Lemma fill_signers_committee_witness :
  Forall (fun a => Z.of_nat (length (ex_address_bytes a)) = AddressLength) [11; 12; 13] /\
  Z.of_nat (length [11; 12; 13]) <= 3 /\
  3 * AddressLength < 2 ^ 63 /\
  fill_signers ex_address_bytes 0 [11; 12; 13]
               (make_slice "000"%byte (3 * AddressLength)) =
    Ret (concat (map ex_address_bytes [11; 12; 13])
         ++ replicate (Z.to_nat ((3 - Z.of_nat (length [11; 12; 13])) * AddressLength))
                      "000"%byte).
Proof.
  assert (Hall : Forall (fun a => Z.of_nat (length (ex_address_bytes a)) = AddressLength)
                        [11; 12; 13]) by (repeat constructor).
  assert (Hfit : Z.of_nat (length [11; 12; 13]) <= 3) by (simpl; lia).
  assert (Hmax : 3 * AddressLength < 2 ^ 63) by reflexivity.
  repeat (split; [assumption |]).
  exact (fill_signers_committee ex_address_bytes [11; 12; 13] 3 Hall Hfit Hmax).
Defined.

(** X22, witness: the committee of [ex_snap3] in two slots. *)
Lemma fill_signers_overflow_witness :
  0 <= 2 /\
  (2 + 1) * AddressLength < 2 ^ 63 /\
  2 < Z.of_nat (length [11; 12; 13]) /\
  fill_signers ex_address_bytes 0 [11; 12; 13]
               (make_slice "000"%byte (2 * AddressLength)) = Panic.
Proof.
  assert (H1 : 0 <= 2) by lia.
  assert (H2 : (2 + 1) * AddressLength < 2 ^ 63) by reflexivity.
  assert (H3 : 2 < Z.of_nat (length [11; 12; 13])) by (simpl; lia).
  repeat (split; [assumption |]).
  exact (fill_signers_overflow ex_address_bytes [11; 12; 13] 2 H1 H2 H3).
Defined.

(** X23, witness: [ex_sealed3] carries the difficulty that [calcDifficulty] gives its
    sealer on top of [ex_snap3]. *)
Lemma calcDifficulty_fits_verifySeal_witness :
  fake (ex_dpor ∅) = NormalMode /\
  big_Uint64 (Number ex_sealed3) <> 0 /\
  ex_ecrecover ex_sealed3 (signatures (ex_dpor ∅))
    = Ret ((11, [11; 12; 13], None), ex_cache_sealed3) /\
  ex_snapshot (wrap64 (big_Uint64 (Number ex_sealed3) - 1)) (ParentHash ex_sealed3) []
    = inl ex_snap3 /\
  wrap64 (sNumber ex_snap3 + 1) = big_Uint64 (Number ex_sealed3) /\
  Difficulty ex_sealed3
    = calcDifficulty DporSnapshot ex_IsLeaderOf sNumber ex_diffInTurn ex_diffNoTurn
                     ex_snap3 11 /\
  ex_verifySeal (ex_dpor ∅) ex_sealed3 [] =
    Ret (match ex_IsLeaderOf ex_snap3 11 (big_Uint64 (Number ex_sealed3)) with
         | (_, Some e) => Some e
         | (false, None) => Some ErrUnauthorized
         | (true, None) =>
             match acceptSigs ex_Hash ex_sealed3 ex_cache_sealed3
                              (ex_SignersOf ex_snap3 (big_Uint64 (Number ex_sealed3)))
                              (Epoch (dpor_config (ex_dpor ∅))) with
             | (_, Some e) => Some e
             | (false, None) => Some ErrNotEnoughSigs
             | (true, None) => None
             end
         end, set_signatures (ex_dpor ∅) ex_cache_sealed3).
Proof.
  assert (Hmode : fake (ex_dpor ∅) = NormalMode) by reflexivity.
  assert (Hnum : big_Uint64 (Number ex_sealed3) <> 0) by (vm_compute; discriminate).
  assert (Hrec : ex_ecrecover ex_sealed3 (signatures (ex_dpor ∅))
                 = Ret ((11, [11; 12; 13], None), ex_cache_sealed3))
    by (vm_compute; reflexivity).
  assert (Hsnap : ex_snapshot (wrap64 (big_Uint64 (Number ex_sealed3) - 1))
                              (ParentHash ex_sealed3) [] = inl ex_snap3) by reflexivity.
  assert (Hnext : wrap64 (sNumber ex_snap3 + 1) = big_Uint64 (Number ex_sealed3))
    by reflexivity.
  assert (Hdiff : Difficulty ex_sealed3
                  = calcDifficulty DporSnapshot ex_IsLeaderOf sNumber ex_diffInTurn
                                   ex_diffNoTurn ex_snap3 11)
    by (vm_compute; reflexivity).
  repeat (split; [assumption |]).
  exact (calcDifficulty_fits_verifySeal ex_Hash ex_rlpKeccak256 ex_Ecrecover
           ex_pubkey_address ex_DecodedExtra2 DporSnapshot ex_SignersOf ex_IsLeaderOf
           sNumber ex_snapshot ex_diffInTurn ex_diffNoTurn (ex_dpor ∅) ex_sealed3 []
           ex_snap3 11 [11; 12; 13] ex_cache_sealed3
           Hmode Hnum Hrec Hsnap Hnext Hdiff).
Defined.

(** X24, witness: signing [ex_seven_a] with nothing cached for it. *)
Lemma signHeader_uncached_panics_witness :
  ex_snapshot (wrap64 (big_Uint64 (Number ex_seven_a) - 1)) (ParentHash ex_seven_a) []
    = inl ex_snap3 /\
  signatures (ex_dpor ∅) !! ex_Hash ex_seven_a = None /\
  ex_SignersOf ex_snap3 (big_Uint64 (Number ex_seven_a)) <> [] /\
  ex_signHeader (ex_dpor ∅) ex_seven_a = Panic.
Proof.
  assert (Hsnap : ex_snapshot (wrap64 (big_Uint64 (Number ex_seven_a) - 1))
                              (ParentHash ex_seven_a) [] = inl ex_snap3) by reflexivity.
  assert (Hnone : signatures (ex_dpor ∅) !! ex_Hash ex_seven_a = None) by reflexivity.
  assert (Hne : ex_SignersOf ex_snap3 (big_Uint64 (Number ex_seven_a)) <> [])
    by (vm_compute; discriminate).
  repeat (split; [assumption |]).
  exact (signHeader_uncached_panics ex_Hash ex_rlpKeccak256 ex_EncodeToExtra2
           DporSnapshot ex_SignersOf ex_IsSignerOf ex_SignerRoundOf ex_snapshot
           (ex_dpor ∅) ex_seven_a ex_snap3 Hsnap Hnone Hne).
Defined.

(** X30, witness: two prepare messages for the same header with different payloads,
    relayed over a record that forgets nothing. *)
Lemma reBroadcast_once_witness :
  (forall c k v, fst (ex_cache_Get (ex_cache_Add c k v) k) = Some v) /\
  (forall c k v, fst (ex_cache_Get c k) = Some v ->
                 fst (ex_cache_Get (snd (ex_cache_Get c k)) k) = Some v) /\
  fst (ex_reBroadcast
         (snd (ex_reBroadcast [] (mkBlockOrHeader None (Some ex_h1)) PrepareMsgCode
                              (ex_msg PrepareHeaderMsg 1)))
         (mkBlockOrHeader None (Some ex_h1)) PrepareMsgCode
         (ex_msg PrepareHeaderMsg 2)) = [].
Proof.
  assert (Hadd : forall c k v, fst (ex_cache_Get (ex_cache_Add c k v) k) = Some v).
  { intros c k v. simpl. rewrite decide_True by reflexivity. reflexivity. }
  assert (Hget : forall c k v, fst (ex_cache_Get c k) = Some v ->
                               fst (ex_cache_Get (snd (ex_cache_Get c k)) k) = Some v).
  { intros c k v H. exact H. }
  repeat (split; [assumption |]).
  exact (reBroadcast_once Z ex_boh_Number ex_boh_Hash (list (msgID * bool))
           ex_cache_Add ex_cache_Get [] (mkBlockOrHeader None (Some ex_h1))
           PrepareMsgCode (ex_msg PrepareHeaderMsg 1) (ex_msg PrepareHeaderMsg 2)
           Hadd Hget).
Defined.
